(** * GLUE feature encoding: a shallow embedding of
      [nemo/collections/nlp/data/datasets/glue_benchmark_dataset.py]

    The Python module turns labelled text examples into fixed-length
    feature records.  Lists are Rocq lists, Python integers are [Z],
    the [label_map] dictionary is a [gmap string nat], and a raised
    exception is the [Raise] outcome of a small error monad.

    The tokenizer is a parameter ([Tokenizer]); each call is taken to
    return a list of its own, so that the in-place [pop] of
    [_truncate_seq_pair] touches one sequence only.  [np.float32] is a
    parameter as well, and so is the processor of [GLUEDataset]; the
    arrays [__getitem__] returns are kept as lists.  The calls to
    [nemo.logging.info] and their string formatting are not part of the
    model. *)

From Stdlib Require Import ZArith Lia Ascii String.
From stdpp Require Import base option list strings gmap.

Local Open Scope string_scope.
Local Open Scope list_scope.

(** ** Outcomes: normal return, a raised exception, or an exhausted loop budget *)

Inductive exn : Type :=
  | ValueError (msg : string)
  | KeyError (key : string)
  | IndexError (msg : string).

Inductive outcome (A : Type) : Type :=
  | Ok (a : A)
  | Raise (e : exn)
  | OutOfFuel.

Arguments Ok {A} a.
Arguments Raise {A} e.
Arguments OutOfFuel {A}.

#[global] Instance outcome_ret : MRet outcome := fun A a => Ok a.
#[global] Instance outcome_bind : MBind outcome := fun A B k m =>
  match m with
  | Ok a => k a
  | Raise e => Raise e
  | OutOfFuel => OutOfFuel
  end.

Definition is_ok {A} (m : outcome A) : bool :=
  match m with Ok _ => true | _ => false end.

Definition is_raise {A} (m : outcome A) : bool :=
  match m with Raise _ => true | _ => false end.

(** ** Python list primitives used by the module *)

(** [l.pop()]: removes the last element in place; [IndexError] on [[]]. *)
Definition pop {T} (l : list T) : outcome (list T) :=
  match l with
  | [] => Raise (IndexError "pop from empty list")
  | _ :: _ => Ok (removelast l)
  end.

(** [[x] * n] for a Python integer [n]: empty when [n <= 0]. *)
Definition py_repeat {T} (x : T) (n : Z) : list T := replicate (Z.to_nat n) x.

(** [l[:k]] for a Python integer [k]: a negative [k] counts from the end. *)
Definition py_slice_to {T} (l : list T) (k : Z) : list T :=
  if (k <? 0)%Z then take (Z.to_nat (Z.of_nat (length l) + k)) l
  else take (Z.to_nat k) l.

(** [len(l)] as a Python integer. *)
Definition len {T} (l : list T) : Z := Z.of_nat (length l).

(** ** [_truncate_seq_pair] (lines 203-218)

    The [while True] loop is unrolled on a budget of iterations; each
    iteration either breaks, or pops one token from [tokens_a] (when it
    is strictly longer) or else from [tokens_b].  The mutated lists are
    returned, since the caller reads them after the call. *)

Fixpoint truncate_loop {T} (fuel : nat) (tokens_a tokens_b : list T)
    (max_length : Z) : outcome (list T * list T) :=
  match fuel with
  | O => OutOfFuel
  | S fuel' =>
      let total_length := (len tokens_a + len tokens_b)%Z in
      if (total_length <=? max_length)%Z then Ok (tokens_a, tokens_b)
      else if (len tokens_a >? len tokens_b)%Z then
        tokens_a' ← pop tokens_a;
        truncate_loop fuel' tokens_a' tokens_b max_length
      else
        tokens_b' ← pop tokens_b;
        truncate_loop fuel' tokens_a tokens_b' max_length
  end.

Definition _truncate_seq_pair {T} (tokens_a tokens_b : list T)
    (max_length : Z) : outcome (list T * list T) :=
  truncate_loop (S (length tokens_a + length tokens_b)) tokens_a tokens_b max_length.

(** The description of section 4.2, as a one-removal relation: drop the
    last token of the strictly longer sequence, of the second on ties,
    while the pair does not fit the budget. *)
Inductive drop_one {T} (budget : Z) : list T * list T -> list T * list T -> Prop :=
  | drop_from_a a b x :
      (len (a ++ [x]) + len b > budget)%Z ->
      length (a ++ [x]) > length b ->
      drop_one budget (a ++ [x], b) (a, b)
  | drop_from_b a b x :
      (len a + len (b ++ [x]) > budget)%Z ->
      length a <= length (b ++ [x]) ->
      drop_one budget (a, b ++ [x]) (a, b).

(** ** Data model *)

(** An example as the processor hands it over; [text_b] may be [None]. *)
Record InputExample : Type := {
  guid : string;
  text_a : string;
  text_b : option string;
  label : string
}.

(** The keyword arguments of [convert_examples_to_features] (lines 58-69).
    The optional markers are [None] or a string. *)
Record TokenParams : Type := {
  bos_token : option string;
  eos_token : option string;
  pad_token : string;
  cls_token : option string;
  sep_token_extra : option string;
  cls_token_at_end : bool;
  cls_token_segment_id : Z;
  pad_token_segment_id : Z;
  pad_on_left : bool;
  mask_padding_with_zero : bool;
  sequence_a_segment_id : Z;
  sequence_b_segment_id : Z
}.

(** The defaults of the signature. *)
Definition default_params : TokenParams := {|
  bos_token := None;
  eos_token := Some "[SEP]";
  pad_token := "[PAD]";
  cls_token := Some "[CLS]";
  sep_token_extra := None;
  cls_token_at_end := false;
  cls_token_segment_id := 0;
  pad_token_segment_id := 0;
  pad_on_left := false;
  mask_padding_with_zero := true;
  sequence_a_segment_id := 0;
  sequence_b_segment_id := 1
|}.

(** The tokenizer is an external collaborator with two methods. *)
Class Tokenizer : Type := {
  text_to_tokens : string -> list string;
  tokens_to_ids : list string -> list Z
}.

(** The label of a feature record: a class index, or the value
    [np.float32] made of the label text (kept abstract). *)
Inductive label_value (float32 : Type) : Type :=
  | ClassIndex (i : nat)
  | Float32 (x : float32).

Arguments ClassIndex {float32} i.
Arguments Float32 {float32} x.

Record InputFeatures (float32 : Type) : Type := {
  input_ids : list Z;
  input_mask : list Z;
  segment_ids : list Z;
  label_id : label_value float32
}.

Arguments input_ids {float32} _.
Arguments input_mask {float32} _.
Arguments segment_ids {float32} _.
Arguments label_id {float32} _.

(** ** Python truthiness *)

(** [if tok:] for an optional string: [None] and [''] are false. *)
Definition is_set (tok : option string) : bool :=
  match tok with
  | Some s => negb (String.eqb s "")
  | None => false
  end.

(** The one-element list [[tok]] appended under [if tok:], else nothing. *)
Definition marker (tok : option string) : list string :=
  match tok with
  | Some s => if String.eqb s "" then [] else [s]
  | None => []
  end.

(** [if tokens_b:] for a list that may be [None]. *)
Definition nonempty {T} (l : option (list T)) : bool :=
  match l with
  | Some (_ :: _) => true
  | _ => false
  end.

(** ** The label dictionary (line 102)

    [{label: i for i, label in enumerate(label_list)}]: entries are
    written in list order, a later index overwriting an earlier one. *)

Definition enumerate {A} (l : list A) : list (nat * A) := zip (seq 0 (length l)) l.

Definition make_label_map (label_list : list string) : gmap string nat :=
  foldl (fun m p => <[p.2 := p.1]> m) ∅ (enumerate label_list).

(** ** [convert_examples_to_features] (lines 52-200) *)

Section Encoder.

Context `{tokenizer : Tokenizer}.
Context {float32 : Type}.

(** [np.float32(s)]: the parsed value, or [None] where Python raises. *)
Variable np_float32 : string -> option float32.

Variable params : TokenParams.
Variable max_seq_length : Z.
Variable output_mode : string.

(** The string inside an optional marker that tested true. *)
Definition tok (t : option string) : string := default "" t.

(** Lines 115-118: the slots reserved when [text_b] is present. *)
Definition special_tokens_count_pair : Z :=
  let special_tokens_count := (if is_set (eos_token params) then 2 else 0)%Z in
  let special_tokens_count :=
    (special_tokens_count + if is_set (sep_token_extra params) then 1 else 0)%Z in
  let special_tokens_count :=
    (special_tokens_count + if is_set (bos_token params) then 2 else 0)%Z in
  (special_tokens_count + if is_set (cls_token params) then 1 else 0)%Z.

(** Lines 121-123: the slots reserved when there is one text. *)
Definition special_tokens_count_single : Z :=
  let special_tokens_count := (if is_set (eos_token params) then 1 else 0)%Z in
  let special_tokens_count :=
    (special_tokens_count + if is_set (sep_token_extra params) then 1 else 0)%Z in
  (special_tokens_count + if is_set (bos_token params) then 1 else 0)%Z.

(** Lines 109-125: tokenize, then truncate to the reserved budget.
    The second component is [None] when [tokens_b] stays [None]. *)
Definition tokenize_and_truncate (example : InputExample)
    : outcome (list string * option (list string)) :=
  let tokens_a := text_to_tokens (text_a example) in
  if is_set (text_b example) then
    let tokens_b := text_to_tokens (tok (text_b example)) in
    '(tokens_a, tokens_b) ←
      _truncate_seq_pair tokens_a tokens_b
        (max_seq_length - special_tokens_count_pair);
    mret (tokens_a, Some tokens_b)
  else
    let special_tokens_count := special_tokens_count_single in
    let tokens_a :=
      if (len tokens_a >? max_seq_length - special_tokens_count)%Z
      then py_slice_to tokens_a (max_seq_length - special_tokens_count)
      else tokens_a in
    mret (tokens_a, None).

(** Lines 126-157: the markers around the two sequences, with the
    parallel segment ids.  ([tokens += ...] may write through to
    [tokens_a], which is not read again.) *)
Definition add_special_tokens (tokens_a : list string)
    (tokens_b : option (list string)) : list string * list Z :=
  let tokens := tokens_a in
  let tokens :=
    if is_set (bos_token params) then [tok (bos_token params)] ++ tokens else tokens in
  let tokens :=
    if is_set (eos_token params) then tokens ++ [tok (eos_token params)] else tokens in
  let segment_ids := py_repeat (sequence_a_segment_id params) (len tokens) in
  let '(tokens, segment_ids) :=
    if nonempty tokens_b && is_set (sep_token_extra params)
    then (tokens ++ [tok (sep_token_extra params)],
          segment_ids ++ [sequence_a_segment_id params])
    else (tokens, segment_ids) in
  let '(tokens, segment_ids) :=
    if nonempty tokens_b then
      let '(tokens, segment_ids) :=
        if is_set (bos_token params)
        then (tokens ++ [tok (bos_token params)],
              segment_ids ++ [sequence_b_segment_id params])
        else (tokens, segment_ids) in
      let tokens := tokens ++ default [] tokens_b in
      let segment_ids :=
        segment_ids ++ py_repeat (sequence_b_segment_id params) (len (default [] tokens_b)) in
      if is_set (eos_token params)
      then (tokens ++ [tok (eos_token params)],
            segment_ids ++ [sequence_b_segment_id params])
      else (tokens, segment_ids)
    else (tokens, segment_ids) in
  if is_set (cls_token params) then
    if cls_token_at_end params
    then (tokens ++ [tok (cls_token params)],
          segment_ids ++ [cls_token_segment_id params])
    else ([tok (cls_token params)] ++ tokens,
          [cls_token_segment_id params] ++ segment_ids)
  else (tokens, segment_ids).

(** Lines 109-157 together: the token sequence before padding. *)
Definition assemble (example : InputExample) : outcome (list string * list Z) :=
  '(tokens_a, tokens_b) ← tokenize_and_truncate example;
  mret (add_special_tokens tokens_a tokens_b).

(** [l[0]] *)
Definition item0 {T} (l : list T) : outcome T :=
  match l with
  | [] => Raise (IndexError "list index out of range")
  | x :: _ => Ok x
  end.

(** Lines 158-180: ids, mask, padding and the three length checks. *)
Definition pad_and_check (tokens : list string) (segment_ids : list Z)
    : outcome (list Z * list Z * list Z) :=
  let input_ids := tokens_to_ids tokens in
  let input_mask :=
    py_repeat (if mask_padding_with_zero params then 1 else 0)%Z (len input_ids) in
  let padding_length := (max_seq_length - len input_ids)%Z in
  pad_token_id ← item0 (tokens_to_ids [pad_token params]);
  let '(input_ids, input_mask, segment_ids) :=
    if pad_on_left params then
      (py_repeat pad_token_id padding_length ++ input_ids,
       py_repeat (if mask_padding_with_zero params then 0 else 1)%Z padding_length
         ++ input_mask,
       py_repeat (pad_token_segment_id params) padding_length ++ segment_ids)
    else
      (input_ids ++ py_repeat pad_token_id padding_length,
       input_mask
         ++ py_repeat (if mask_padding_with_zero params then 0 else 1)%Z padding_length,
       segment_ids ++ py_repeat (pad_token_segment_id params) padding_length) in
  if negb (len input_ids =? max_seq_length)%Z then
    Raise (ValueError "input_ids must be of length max_seq_length")
  else if negb (len input_mask =? max_seq_length)%Z then
    Raise (ValueError "input_mask must be of length max_seq_length")
  else if negb (len segment_ids =? max_seq_length)%Z then
    Raise (ValueError "segment_ids must be of length max_seq_length")
  else Ok (input_ids, input_mask, segment_ids).

(** Lines 181-186: the label of the record. *)
Definition resolve_label (label_map : gmap string nat) (example : InputExample)
    : outcome (label_value float32) :=
  if String.eqb output_mode "classification" then
    match label_map !! label example with
    | Some i => Ok (ClassIndex i)
    | None => Raise (KeyError (label example))
    end
  else if String.eqb output_mode "regression" then
    match np_float32 (label example) with
    | Some x => Ok (Float32 x)
    | None => Raise (ValueError "could not convert string to float")
    end
  else Raise (KeyError output_mode).

(** Steps 1-8 of one pass of the loop body: the three padded sequences. *)
Definition encode_sequences (example : InputExample)
    : outcome (list Z * list Z * list Z) :=
  '(tokens, segment_ids) ← assemble example;
  pad_and_check tokens segment_ids.

(** One pass of the loop body (lines 109-199).  The calls to
    [nemo.logging.info] return nothing that is read and are left out. *)
Definition convert_example (label_map : gmap string nat) (example : InputExample)
    : outcome (InputFeatures float32) :=
  '(input_ids, input_mask, segment_ids) ← encode_sequences example;
  label_id ← resolve_label label_map example;
  mret {| input_ids := input_ids; input_mask := input_mask;
          segment_ids := segment_ids; label_id := label_id |}.

(** The [for] loop (lines 104-200), threading the list [features]. *)
Fixpoint convert_loop (label_map : gmap string nat) (examples : list InputExample)
    (features : list (InputFeatures float32)) : outcome (list (InputFeatures float32)) :=
  match examples with
  | [] => Ok features
  | example :: rest =>
      feature ← convert_example label_map example;
      convert_loop label_map rest (features ++ [feature])
  end.

Definition convert_examples_to_features (examples : list InputExample)
    (label_list : list string) : outcome (list (InputFeatures float32)) :=
  let label_map := make_label_map label_list in
  convert_loop label_map examples [].

End Encoder.

(** ** [GLUEDataset] (lines 30-49)

    The processor is the second external collaborator.  The numpy
    arrays returned by [__getitem__] are kept as the lists and the label
    they are made of. *)

Class Processor : Type := {
  get_labels : list string;
  get_train_examples : string -> list InputExample;
  get_dev_examples : string -> list InputExample
}.

(** [l[idx]] for a Python integer [idx]: a negative index counts from
    the end, an index outside the list raises [IndexError]. *)
Definition py_index {T} (l : list T) (idx : Z) : outcome T :=
  let i := if (idx <? 0)%Z then (idx + len l)%Z else idx in
  if (i <? 0)%Z then Raise (IndexError "list index out of range")
  else match l !! Z.to_nat i with
       | Some x => Ok x
       | None => Raise (IndexError "list index out of range")
       end.

Module GLUEDataset.

Record t (float32 : Type) : Type := {
  tokenizer : Tokenizer;
  label_list : list string;
  examples : list InputExample;
  features : list (InputFeatures float32)
}.

Arguments tokenizer {float32} _.
Arguments label_list {float32} _.
Arguments examples {float32} _.
Arguments features {float32} _.

(** Lines 31-37.  [token_params] carries the keyword arguments. *)
Definition __init__ {float32 : Type} (np_float32 : string -> option float32)
    (data_dir : string) (tokenizer : Tokenizer) (max_seq_length : Z)
    (processor : Processor) (output_mode : string) (evaluate : bool)
    (token_params : TokenParams) : outcome (t float32) :=
  let label_list := get_labels in
  let examples :=
    if evaluate then get_dev_examples data_dir else get_train_examples data_dir in
  features ← convert_examples_to_features np_float32 token_params max_seq_length
               output_mode examples label_list;
  mret {| tokenizer := tokenizer; label_list := label_list;
          examples := examples; features := features |}.

(** Lines 39-40. *)
Definition __len__ {float32 : Type} (self : t float32) : Z := len (features self).

(** Lines 42-49: ids, segment ids, mask and label, in this order. *)
Definition __getitem__ {float32 : Type} (self : t float32) (idx : Z)
    : outcome (list Z * list Z * list Z * label_value float32) :=
  feature ← py_index (features self) idx;
  mret (input_ids feature, segment_ids feature, input_mask feature, label_id feature).

End GLUEDataset.

(** ** The specification's wording, for comparison with the code *)

(** Section 4.1, step 2: the reserved slots as the text lists them. *)
Definition reserved_slots_spec (params : TokenParams) (two_texts : bool) : Z :=
  ((if is_set (eos_token params) then (if two_texts then 2 else 1) else 0)
   + (if is_set (sep_token_extra params) && two_texts then 1 else 0)
   + (if is_set (bos_token params) then (if two_texts then 2 else 1) else 0)
   + (if is_set (cls_token params) then 1 else 0))%Z.

(** Section 4.1, step 4: the order of assembly as the text lists it,
    the second group appearing when two texts are present
    ([tokens_b] is [Some _]). *)
Definition assembly_order_spec (params : TokenParams) (tokens_a : list string)
    (tokens_b : option (list string)) : list string * list Z :=
  let body :=
    marker (bos_token params) ++ tokens_a ++ marker (eos_token params)
    ++ match tokens_b with
       | Some tb =>
           marker (sep_token_extra params) ++ marker (bos_token params)
           ++ tb ++ marker (eos_token params)
       | None => []
       end in
  let segs :=
    replicate (length (marker (bos_token params) ++ tokens_a ++ marker (eos_token params)))
      (sequence_a_segment_id params)
    ++ match tokens_b with
       | Some tb =>
           replicate (length (marker (sep_token_extra params))) (sequence_a_segment_id params)
           ++ replicate (length (marker (bos_token params) ++ tb ++ marker (eos_token params)))
                (sequence_b_segment_id params)
       | None => []
       end in
  if is_set (cls_token params) then
    if cls_token_at_end params
    then (body ++ marker (cls_token params), segs ++ [cls_token_segment_id params])
    else (marker (cls_token params) ++ body, cls_token_segment_id params :: segs)
  else (body, segs).

(** Section 4.1, steps 6-7: the mask values and the padded side. *)
Definition real_mask_value (params : TokenParams) : Z :=
  if mask_padding_with_zero params then 1%Z else 0%Z.

Definition padding_mask_value (params : TokenParams) : Z :=
  if mask_padding_with_zero params then 0%Z else 1%Z.

Definition pad_side {T} (params : TokenParams) (padding content : list T) : list T :=
  if pad_on_left params then padding ++ content else content ++ padding.

(** The number of tokens each sequence keeps under a budget [B >= 0]:
    the upper and lower half of the budget, or more when the other
    sequence leaves room. *)
Definition kept_a (n m : nat) (B : Z) : nat :=
  Z.to_nat (Z.min (Z.of_nat n) (Z.max (B - Z.of_nat m) ((B + 1) / 2))).

Definition kept_b (n m : nat) (B : Z) : nat :=
  Z.to_nat (Z.min (Z.of_nat m) (Z.max (B - Z.of_nat n) (B / 2))).

(** ** A small tokenizer to run the encoder on *)

(** Splits on blanks, as the whitespace-separated texts of the tests. *)
Fixpoint words_from (cur : string) (s : string) : list string :=
  match s with
  | EmptyString => if String.eqb cur "" then [] else [cur]
  | String c s' =>
      if Ascii.eqb c " "%char
      then (if String.eqb cur "" then words_from "" s' else cur :: words_from "" s')
      else words_from (String.append cur (String c EmptyString)) s'
  end.

Definition demo_vocab : list string := ["[PAD]"; "[CLS]"; "[SEP]"; "<s>"; "</s>"].

Fixpoint vocab_index (vocab : list string) (t : string) (i : Z) : Z :=
  match vocab with
  | [] => (i + Z.of_nat (String.length t))%Z
  | v :: vocab' => if String.eqb v t then i else vocab_index vocab' t (i + 1)%Z
  end.

Definition demo_token_id (t : string) : Z := vocab_index demo_vocab t 0.

#[local] Instance demo_tokenizer : Tokenizer := {|
  text_to_tokens := words_from "";
  tokens_to_ids := fmap demo_token_id
|}.

(** No label parses as a number in the runs below. *)
Definition no_float : string -> option Z := fun _ => None.

Definition example_of (a : string) (b : option string) (lbl : string) : InputExample :=
  {| guid := "dev-0"; text_a := a; text_b := b; label := lbl |}.

(** Parameter sets used in the runs below. *)

(** An extra separator and no classification marker. *)
Definition extra_sep_params : TokenParams := {|
  bos_token := None;
  eos_token := Some "[SEP]";
  pad_token := "[PAD]";
  cls_token := None;
  sep_token_extra := Some "</s>";
  cls_token_at_end := false;
  cls_token_segment_id := 0;
  pad_token_segment_id := 0;
  pad_on_left := false;
  mask_padding_with_zero := true;
  sequence_a_segment_id := 0;
  sequence_b_segment_id := 1
|}.

(** The classification marker in front, padding on the left, and
    segment ids that tell the marker (2) from the padding (4). *)
Definition left_pad_params : TokenParams := {|
  bos_token := None;
  eos_token := Some "[SEP]";
  pad_token := "[PAD]";
  cls_token := Some "[CLS]";
  sep_token_extra := None;
  cls_token_at_end := false;
  cls_token_segment_id := 2;
  pad_token_segment_id := 4;
  pad_on_left := true;
  mask_padding_with_zero := true;
  sequence_a_segment_id := 0;
  sequence_b_segment_id := 1
|}.

(** The XLNet pattern of the docstring: the marker at the end, padding
    on the left. *)
Definition xlnet_params : TokenParams := {|
  bos_token := None;
  eos_token := Some "[SEP]";
  pad_token := "[PAD]";
  cls_token := Some "[CLS]";
  sep_token_extra := None;
  cls_token_at_end := true;
  cls_token_segment_id := 2;
  pad_token_segment_id := 4;
  pad_on_left := true;
  mask_padding_with_zero := true;
  sequence_a_segment_id := 0;
  sequence_b_segment_id := 1
|}.

(** A batch whose second example carries a label outside ["neg"; "pos"]. *)
Definition mixed_batch : list InputExample :=
  [example_of "a bb ccc" None "pos";
   example_of "a b c d e" None "neutral";
   example_of "dd" None "neg"].

(** A processor with two labels, two training and three evaluation
    examples, whatever the directory. *)
#[local] Instance demo_processor : Processor := {|
  get_labels := ["neg"; "pos"];
  get_train_examples := fun _ =>
    [example_of "a bb ccc" None "pos"; example_of "a bb ccc" (Some "dd e") "neg"];
  get_dev_examples := fun _ =>
    [example_of "dd" None "neg"; example_of "a" (Some "b") "pos";
     example_of "e" None "pos"]
|}.

(** ** Laws a tokenizer may satisfy *)

(** One id per token. *)
Definition length_preserving (tokenizer : Tokenizer) : Prop :=
  forall tokens, length (tokens_to_ids tokens) = length tokens.

(** Ids are looked up token by token. *)
Definition pointwise (tokenizer : Tokenizer) (token_id : string -> Z) : Prop :=
  forall tokens, tokens_to_ids tokens = token_id <$> tokens.

(** * Runs of the model *)

Example truncate_10_3_8 :
  _truncate_seq_pair [1;2;3;4;5;6;7;8;9;10] [11;12;13] 8 = Ok ([1;2;3;4;5], [11;12;13]).
Proof. reflexivity. Qed.

Example truncate_tie :
  _truncate_seq_pair [1;2;3] [4;5;6] 4 = Ok ([1;2], [4;5]).
Proof. reflexivity. Qed.

Example truncate_negative :
  _truncate_seq_pair [1] [2] (-1) = Raise (IndexError "pop from empty list").
Proof. reflexivity. Qed.

Example run_single :
  convert_example no_float default_params 8 "classification"
    (make_label_map ["neg"; "pos"]) (example_of "a bb ccc" None "pos")
  = Ok {| input_ids := [1; 6; 7; 8; 2; 0; 0; 0]%Z;
          input_mask := [1; 1; 1; 1; 1; 0; 0; 0]%Z;
          segment_ids := [0; 0; 0; 0; 0; 0; 0; 0]%Z;
          label_id := ClassIndex 1 |}.
Proof. vm_compute. reflexivity. Qed.

Example run_pair :
  convert_example no_float default_params 8 "classification"
    (make_label_map ["neg"; "pos"]) (example_of "a bb ccc" (Some "dd e") "neg")
  = Ok {| input_ids := [1; 6; 7; 8; 2; 7; 6; 2]%Z;
          input_mask := [1; 1; 1; 1; 1; 1; 1; 1]%Z;
          segment_ids := [0; 0; 0; 0; 0; 1; 1; 1]%Z;
          label_id := ClassIndex 0 |}.
Proof. vm_compute. reflexivity. Qed.

(** ** Facts about [pop] and the truncation loop *)

Lemma pop_snoc {T} (l : list T) (x : T) : pop (l ++ [x]) = Ok l.
Proof.
  unfold pop. destruct (l ++ [x]) eqn:E.
  - destruct l; discriminate.
  - rewrite <- E. f_equal. apply removelast_last.
Qed.

Lemma snoc_cases {T} (l : list T) : l = [] \/ exists l' x, l = l' ++ [x].
Proof.
  induction l as [|y l' _] using rev_ind; [now left | right; eauto].
Qed.

Lemma len_snoc {T} (l : list T) (x : T) : len (l ++ [x]) = (len l + 1)%Z.
Proof. unfold len. rewrite length_app. simpl. lia. Qed.

Lemma len_nonneg {T} (l : list T) : (0 <= len l)%Z.
Proof. unfold len. lia. Qed.

Lemma len_nil {T} : len (@nil T) = 0%Z.
Proof. reflexivity. Qed.

Lemma truncate_loop_unfold {T} fuel (a b : list T) B :
  truncate_loop (S fuel) a b B =
    if (len a + len b <=? B)%Z then Ok (a, b)
    else if (len a >? len b)%Z then a' ← pop a; truncate_loop fuel a' b B
    else b' ← pop b; truncate_loop fuel a b' B.
Proof. reflexivity. Qed.

(** With a non-negative budget the loop makes exactly
    [len a + len b - B] removals (none when the pair already fits):
    more iterations than that produce the result, fewer do not. *)
Lemma truncate_loop_run {T} fuel : forall (a b : list T) B,
  (0 <= B)%Z ->
  (Z.to_nat (len a + len b - B) < fuel ->
     exists a' b', truncate_loop fuel a b B = Ok (a', b')
       /\ nsteps (drop_one B) (Z.to_nat (len a + len b - B)) (a, b) (a', b')
       /\ (len a' + len b' <= B)%Z)
  /\ (fuel <= Z.to_nat (len a + len b - B) -> truncate_loop fuel a b B = OutOfFuel).
Proof.
  induction fuel as [|fuel IH]; intros a b B HB.
  { split; [lia | reflexivity]. }
  rewrite truncate_loop_unfold.
  destruct (Z.leb_spec (len a + len b) B) as [Hfit|Hbig].
  { replace (Z.to_nat (len a + len b - B)) with 0 by lia.
    split; [|lia]. intros _. exists a, b. split; [done|]. split; [constructor | done]. }
  destruct (Z.gtb_spec (len a) (len b)) as [Hgt|Hle].
  - destruct (snoc_cases a) as [->|(a0 & x & ->)].
    { rewrite len_nil in Hgt. pose proof (len_nonneg b). lia. }
    rewrite pop_snoc. simpl.
    destruct (IH a0 b B HB) as [Hrun Hshort].
    rewrite len_snoc in *.
    replace (Z.to_nat (len a0 + 1 + len b - B)) with (S (Z.to_nat (len a0 + len b - B))) by lia.
    split.
    + intros Hf. destruct Hrun as (a' & b' & Heq & Hsteps & Hfit'); [lia|].
      exists a', b'. split; [done|]. split; [|done].
      eapply nsteps_l; [|exact Hsteps].
      constructor; [rewrite len_snoc; lia|].
      unfold len in Hgt. rewrite length_app. simpl. lia.
    + intros Hf. apply Hshort. lia.
  - destruct (snoc_cases b) as [->|(b0 & x & ->)].
    { rewrite len_nil in *. pose proof (len_nonneg a). lia. }
    rewrite pop_snoc. simpl.
    destruct (IH a b0 B HB) as [Hrun Hshort].
    rewrite len_snoc in *.
    replace (Z.to_nat (len a + (len b0 + 1) - B)) with (S (Z.to_nat (len a + len b0 - B))) by lia.
    split.
    + intros Hf. destruct Hrun as (a' & b' & Heq & Hsteps & Hfit'); [lia|].
      exists a', b'. split; [done|]. split; [|done].
      eapply nsteps_l; [|exact Hsteps].
      constructor; [rewrite len_snoc; lia|].
      unfold len in Hle. rewrite length_app. simpl. lia.
    + intros Hf. apply Hshort. lia.
Qed.

(** With a negative budget the loop empties both sequences and then
    pops from the empty [tokens_b]. *)
Lemma truncate_loop_negative {T} fuel : forall (a b : list T) B,
  (B < 0)%Z -> length a + length b < fuel ->
  truncate_loop fuel a b B = Raise (IndexError "pop from empty list").
Proof.
  induction fuel as [|fuel IH]; intros a b B HB Hf; [lia|].
  rewrite truncate_loop_unfold.
  pose proof (len_nonneg a). pose proof (len_nonneg b).
  destruct (Z.leb_spec (len a + len b) B) as [Hfit|Hbig]; [lia|].
  destruct (Z.gtb_spec (len a) (len b)) as [Hgt|Hle].
  - destruct (snoc_cases a) as [->|(a0 & x & ->)].
    { rewrite len_nil in Hgt. lia. }
    rewrite pop_snoc. simpl. apply IH; [done|].
    rewrite length_app in Hf. simpl in Hf. lia.
  - destruct (snoc_cases b) as [->|(b0 & x & ->)]; [reflexivity|].
    rewrite pop_snoc. simpl. apply IH; [done|].
    rewrite length_app in Hf. simpl in Hf. lia.
Qed.

Lemma drop_one_prefix {T} B (s s' : list T * list T) :
  drop_one B s s' ->
  s'.1 `prefix_of` s.1 /\ s'.2 `prefix_of` s.2
  /\ S (length s'.1 + length s'.2) = length s.1 + length s.2.
Proof.
  intros [a b x _ _|a b x _ _]; simpl; rewrite length_app; simpl.
  - split; [by apply prefix_app_r|]. split; [done | lia].
  - split; [done|]. split; [by apply prefix_app_r | lia].
Qed.

Lemma drop_steps_prefix {T} B n (s s' : list T * list T) :
  nsteps (drop_one B) n s s' ->
  s'.1 `prefix_of` s.1 /\ s'.2 `prefix_of` s.2
  /\ length s'.1 + length s'.2 + n = length s.1 + length s.2.
Proof.
  induction 1 as [s|n s t u Hst _ IH].
  - split; [done|]. split; [done | lia].
  - destruct (drop_one_prefix _ _ _ Hst) as (Ha & Hb & Hl).
    destruct IH as (Ha' & Hb' & Hl').
    split; [by etrans|]. split; [by etrans | lia].
Qed.

Lemma drop_one_deterministic {T} B (s t u : list T * list T) :
  drop_one B s t -> drop_one B s u -> t = u.
Proof.
  intros Ht Hu.
  destruct Ht as [a b x _ Hab|a b x _ Hab];
    inversion Hu as [c d y _ Hcd|c d y _ Hcd]; subst;
    try (rewrite !length_app in *; simpl in *; lia);
    match goal with
    | E : _ ++ [_] = _ ++ [_] |- _ => apply app_inj_tail in E as [-> _]; done
    end.
Qed.

Lemma drop_steps_deterministic {T} B n : forall (s t u : list T * list T),
  nsteps (drop_one B) n s t -> nsteps (drop_one B) n s u -> t = u.
Proof.
  induction n as [|n IHn]; intros s t u Ht Hu.
  - inversion Ht; inversion Hu; congruence.
  - inversion Ht as [|? ? t1 ? Hs1 Hr1]; inversion Hu as [|? ? u1 ? Hs2 Hr2]; subst.
    rewrite (drop_one_deterministic _ _ _ _ Hs1 Hs2) in Hr1. by eapply IHn.
Qed.

(** The shorter second sequence is left alone while it fits half the
    budget: only [tokens_a] is trimmed, down to [B - len b]. *)
Lemma truncate_loop_keeps_b {T} fuel : forall (a b : list T) B,
  (2 * len b <= B)%Z -> (B <= len a + len b)%Z ->
  Z.to_nat (len a + len b - B) < fuel ->
  truncate_loop fuel a b B = Ok (take (Z.to_nat (B - len b)) a, b).
Proof.
  induction fuel as [|fuel IH]; intros a b B Hb Hlo Hf; [lia|].
  rewrite truncate_loop_unfold.
  destruct (Z.leb_spec (len a + len b) B) as [Hfit|Hbig].
  { rewrite take_ge; [done|]. unfold len in *. lia. }
  destruct (Z.gtb_spec (len a) (len b)) as [Hgt|Hle]; [|lia].
  destruct (snoc_cases a) as [->|(a0 & x & ->)].
  { rewrite len_nil in Hgt. pose proof (len_nonneg b). lia. }
  rewrite pop_snoc. simpl. rewrite len_snoc in *.
  rewrite IH; [|done|lia|lia].
  rewrite take_app_le; [done|]. unfold len in *. lia.
Qed.

(** ** The truncation policy *)

(** C3: whenever [_truncate_seq_pair] returns, its result is reached
    from the input by repeatedly dropping the last token of the strictly
    longer sequence (of [tokens_b] on ties) while the pair exceeds the
    budget; it fits the budget and each sequence is a prefix of its
    input.  It does return for every non-negative budget.  For lengths
    10 and 3 and budget 8, [tokens_b] is unchanged and [tokens_a] keeps
    its first 8 - 3 = 5 tokens. *)
Theorem truncate_seq_pair_greedy {T} (tokens_a tokens_b : list T) (budget : Z) :
  (forall a' b',
      _truncate_seq_pair tokens_a tokens_b budget = Ok (a', b') ->
      rtc (drop_one budget) (tokens_a, tokens_b) (a', b')
      /\ (len a' + len b' <= budget)%Z
      /\ (forall s, ~ drop_one budget (a', b') s)
      /\ a' `prefix_of` tokens_a /\ b' `prefix_of` tokens_b)
  /\ ((0 <= budget)%Z -> is_ok (_truncate_seq_pair tokens_a tokens_b budget) = true)
  /\ (length tokens_a = 10 -> length tokens_b = 3 -> budget = 8%Z ->
      _truncate_seq_pair tokens_a tokens_b budget = Ok (take 5 tokens_a, tokens_b)).
Proof.
  assert (Hrun : (0 <= budget)%Z -> exists a' b',
    _truncate_seq_pair tokens_a tokens_b budget = Ok (a', b')
    /\ nsteps (drop_one budget) (Z.to_nat (len tokens_a + len tokens_b - budget))
         (tokens_a, tokens_b) (a', b')
    /\ (len a' + len b' <= budget)%Z).
  { intros HB. unfold _truncate_seq_pair.
    destruct (truncate_loop_run (S (length tokens_a + length tokens_b))
                tokens_a tokens_b budget HB) as [Hrun _].
    apply Hrun. unfold len. lia. }
  split; [|split].
  - intros a' b' Heq.
    destruct (Z.le_gt_cases 0 budget) as [HB|HB].
    + destruct (Hrun HB) as (a1 & b1 & Heq1 & Hsteps & Hfit).
      rewrite Heq in Heq1. injection Heq1 as <- <-.
      destruct (drop_steps_prefix _ _ _ _ Hsteps) as (Ha & Hb & _).
      split; [by eapply rtc_nsteps_2|]. split; [done|].
      split; [|done].
      intros s Hs. inversion Hs; subst; lia.
    + unfold _truncate_seq_pair in Heq.
      rewrite truncate_loop_negative in Heq; [discriminate | lia | lia].
  - intros HB. destruct (Hrun HB) as (a' & b' & -> & _). reflexivity.
  - intros Ha Hb ->. unfold _truncate_seq_pair.
    rewrite truncate_loop_keeps_b; unfold len; rewrite ?Ha, ?Hb; try lia.
    reflexivity.
Qed.

Lemma truncate_seq_pair_greedy_witness :
  _truncate_seq_pair ["t0"; "t1"; "t2"; "t3"; "t4"; "t5"; "t6"; "t7"; "t8"; "t9"]
    ["u0"; "u1"; "u2"] 8
  = Ok (["t0"; "t1"; "t2"; "t3"; "t4"], ["u0"; "u1"; "u2"])
  /\ rtc (drop_one 8)
       (["t0"; "t1"; "t2"; "t3"; "t4"; "t5"; "t6"; "t7"; "t8"; "t9"], ["u0"; "u1"; "u2"])
       (["t0"; "t1"; "t2"; "t3"; "t4"], ["u0"; "u1"; "u2"])
  /\ is_ok (_truncate_seq_pair ["t0"; "t1"; "t2"; "t3"; "t4"; "t5"; "t6"; "t7"; "t8"; "t9"]
             ["u0"; "u1"; "u2"] 8) = true.
Proof.
  destruct (truncate_seq_pair_greedy
              ["t0"; "t1"; "t2"; "t3"; "t4"; "t5"; "t6"; "t7"; "t8"; "t9"]
              ["u0"; "u1"; "u2"] 8) as (Hret & Hok & Hex).
  split; [apply Hex; reflexivity|].
  split; [apply (Hret _ _ (Hex eq_refl eq_refl eq_refl)) | apply Hok; lia].
Defined.

(** C9: for a non-negative budget the loop terminates after exactly
    max(0, len(tokens_a) + len(tokens_b) - budget) removals, with a
    total length within the budget: one more iteration than that
    returns the result, any fewer do not.  For a negative budget both
    sequences are emptied and the next [pop] raises [IndexError]. *)
Theorem truncate_seq_pair_terminates {T} (tokens_a tokens_b : list T) (budget : Z) :
  ((0 <= budget)%Z ->
     let removals := Z.to_nat (Z.max 0 (len tokens_a + len tokens_b - budget)) in
     exists a' b',
       _truncate_seq_pair tokens_a tokens_b budget = Ok (a', b')
       /\ nsteps (drop_one budget) removals (tokens_a, tokens_b) (a', b')
       /\ length a' + length b' + removals = length tokens_a + length tokens_b
       /\ (len a' + len b' <= budget)%Z
       /\ (forall fuel, removals < fuel ->
             truncate_loop fuel tokens_a tokens_b budget = Ok (a', b'))
       /\ (forall fuel, fuel <= removals ->
             truncate_loop fuel tokens_a tokens_b budget = OutOfFuel))
  /\ ((budget < 0)%Z ->
        _truncate_seq_pair tokens_a tokens_b budget
          = Raise (IndexError "pop from empty list")
        /\ forall fuel, length tokens_a + length tokens_b < fuel ->
             truncate_loop fuel tokens_a tokens_b budget
               = Raise (IndexError "pop from empty list")).
Proof.
  split.
  - intros HB removals.
    assert (Hr : removals = Z.to_nat (len tokens_a + len tokens_b - budget))
      by (unfold removals; lia).
    destruct (truncate_loop_run (S (length tokens_a + length tokens_b))
                tokens_a tokens_b budget HB) as [Hrun _].
    destruct Hrun as (a' & b' & Heq & Hsteps & Hfit); [unfold len; lia|].
    exists a', b'. rewrite Hr.
    destruct (drop_steps_prefix _ _ _ _ Hsteps) as (_ & _ & Hlen). simpl in Hlen.
    split; [exact Heq|]. split; [exact Hsteps|]. split; [exact Hlen|].
    split; [exact Hfit|]. split.
    + intros fuel Hf.
      destruct (truncate_loop_run fuel tokens_a tokens_b budget HB) as [Hrun' _].
      destruct (Hrun' Hf) as (a1 & b1 & Heq1 & Hsteps1 & _).
      rewrite Heq1. clear Heq1 Hrun'.
      by rewrite (drop_steps_deterministic _ _ _ _ _ Hsteps1 Hsteps).
    + intros fuel Hf.
      by apply (truncate_loop_run fuel tokens_a tokens_b budget HB).
  - intros HB. split.
    + unfold _truncate_seq_pair. apply truncate_loop_negative; [done | lia].
    + intros fuel Hf. by apply truncate_loop_negative.
Qed.

Lemma truncate_seq_pair_terminates_witness :
  (exists a' b',
     _truncate_seq_pair ["a"; "b"; "c"; "d"] ["e"; "f"; "g"] 5 = Ok (a', b')
     /\ nsteps (drop_one 5) 2 (["a"; "b"; "c"; "d"], ["e"; "f"; "g"]) (a', b')
     /\ length a' + length b' + 2 = 7
     /\ (len a' + len b' <= 5)%Z
     /\ (forall fuel, 2 < fuel ->
           truncate_loop fuel ["a"; "b"; "c"; "d"] ["e"; "f"; "g"] 5 = Ok (a', b'))
     /\ (forall fuel, fuel <= 2 ->
           truncate_loop fuel ["a"; "b"; "c"; "d"] ["e"; "f"; "g"] 5 = OutOfFuel))
  /\ _truncate_seq_pair ["a"; "b"] ["c"] (-1) = Raise (IndexError "pop from empty list").
Proof.
  split.
  - exact (proj1 (truncate_seq_pair_terminates ["a"; "b"; "c"; "d"] ["e"; "f"; "g"] 5)
             ltac:(lia)).
  - exact (proj1 (proj2 (truncate_seq_pair_terminates ["a"; "b"] ["c"] (-1)) ltac:(lia))).
Defined.

(** ** The label dictionary *)

(** Reading the dictionary built from [label_list], starting at index
    [k] over a dictionary [m]: a label of the list maps to its last
    position, any other key is left as in [m]. *)
Lemma label_fold_lookup (l : list string) : forall (k : nat) (m : gmap string nat) (s : string),
  (s ∉ l -> foldl (fun m p => <[p.2 := p.1]> m) m (zip (seq k (length l)) l) !! s = m !! s)
  /\ (s ∈ l -> exists j,
        foldl (fun m p => <[p.2 := p.1]> m) m (zip (seq k (length l)) l) !! s = Some (k + j)
        /\ l !! j = Some s
        /\ forall j', l !! j' = Some s -> j' <= j).
Proof.
  induction l as [|x l IH]; intros k m s.
  { split; [done|]. intros Hin. by apply elem_of_nil in Hin. }
  simpl. destruct (IH (S k) (<[x:=k]> m) s) as [IHout IHin].
  destruct (decide (s ∈ l)) as [Hl|Hl].
  - split; [intros Hn; exfalso; apply Hn; by right|]. intros _.
    destruct (IHin Hl) as (j & Hj & Hlook & Hmax).
    exists (S j). split; [rewrite Hj; f_equal; lia|]. split; [done|].
    intros [|j'] Hj'; [lia|]. apply Hmax in Hj'. lia.
  - rewrite (IHout Hl). split.
    + intros Hn. apply lookup_insert_ne. intros ->. apply Hn. by left.
    + intros Hin. apply elem_of_cons in Hin as [->|Hin]; [|done].
      exists 0. split; [rewrite lookup_insert_eq; f_equal; lia|]. split; [done|].
      intros [|j'] Hj'; [lia|]. simpl in Hj'.
      exfalso. apply Hl. by eapply list_elem_of_lookup_2.
Qed.

Lemma make_label_map_absent (label_list : list string) (s : string) :
  s ∉ label_list -> make_label_map label_list !! s = None.
Proof.
  intros Hn. unfold make_label_map, enumerate.
  by rewrite (proj1 (label_fold_lookup label_list 0 ∅ s) Hn).
Qed.

Lemma make_label_map_present (label_list : list string) (s : string) :
  s ∈ label_list ->
  exists i, make_label_map label_list !! s = Some i
    /\ label_list !! i = Some s
    /\ forall j, label_list !! j = Some s -> j <= i.
Proof.
  intros Hin. unfold make_label_map, enumerate.
  destruct (proj2 (label_fold_lookup label_list 0 ∅ s) Hin) as (j & Hj & Hl & Hmax).
  exists j. by rewrite Hj.
Qed.

Example label_map_neg_pos : make_label_map ["neg"; "pos"] !! "pos" = Some 1.
Proof. vm_compute. reflexivity. Qed.

Example label_map_repeated : make_label_map ["x"; "y"; "x"] !! "x" = Some 2.
Proof. vm_compute. reflexivity. Qed.

(** ** Facts about the encoder *)

Lemma marker_set (t : option string) : is_set t = true -> marker t = [tok t].
Proof. destruct t as [s|]; simpl; [|done]. by destruct (String.eqb s ""). Qed.

Lemma marker_unset (t : option string) : is_set t = false -> marker t = [].
Proof. destruct t as [s|]; simpl; [|done]. by destruct (String.eqb s ""). Qed.

Lemma marker_length (t : option string) :
  length (marker t) = if is_set t then 1 else 0.
Proof. destruct t as [s|]; simpl; [|done]. by destruct (String.eqb s ""). Qed.

(** Case analysis on which of the four optional markers are set. *)
Ltac case_markers params :=
  destruct (is_set (bos_token params)), (is_set (eos_token params)),
    (is_set (sep_token_extra params)), (is_set (cls_token params)).

Lemma py_repeat_len {T U} (x : T) (l : list U) : py_repeat x (len l) = replicate (length l) x.
Proof. unfold py_repeat, len. by rewrite Nat2Z.id. Qed.

Lemma py_repeat_length {T} (x : T) (n : Z) : length (py_repeat x n) = Z.to_nat n.
Proof. apply length_replicate. Qed.

Lemma truncate_seq_pair_cases {T} (a b : list T) (B : Z) :
  ((0 <= B)%Z /\ exists a' b',
      _truncate_seq_pair a b B = Ok (a', b')
      /\ a' `prefix_of` a /\ b' `prefix_of` b /\ (len a' + len b' <= B)%Z)
  \/ ((B < 0)%Z /\ _truncate_seq_pair a b B = Raise (IndexError "pop from empty list")).
Proof.
  destruct (Z.le_gt_cases 0 B) as [HB|HB].
  - left. split; [done|].
    destruct (truncate_loop_run (S (length a + length b)) a b B HB) as [Hrun _].
    destruct Hrun as (a' & b' & Heq & Hsteps & Hfit); [unfold len; lia|].
    destruct (drop_steps_prefix _ _ _ _ Hsteps) as (Ha & Hb & _).
    by exists a', b'.
  - right. split; [done|]. apply truncate_loop_negative; [done | lia].
Qed.

Section EncoderFacts.

Context `{tokenizer : Tokenizer}.
Context {float32 : Type}.
Variable np_float32 : string -> option float32.
Variable params : TokenParams.
Variable L : Z.

(** The sequential construction of lines 126-157 produces the order
    of section 4.1 step 4, the second group being present exactly
    when [tokens_b] is a non-empty list. *)
Lemma add_special_tokens_order (tokens_a : list string) (tokens_b : option (list string)) :
  add_special_tokens params tokens_a tokens_b
  = assembly_order_spec params tokens_a (if nonempty tokens_b then tokens_b else None).
Proof.
  unfold add_special_tokens, assembly_order_spec.
  rewrite !py_repeat_len.
  destruct (is_set (bos_token params)) eqn:Hbos;
    [rewrite (marker_set _ Hbos) | rewrite (marker_unset _ Hbos)];
  (destruct (is_set (eos_token params)) eqn:Heos;
    [rewrite (marker_set _ Heos) | rewrite (marker_unset _ Heos)]);
  (destruct (is_set (sep_token_extra params)) eqn:Hsep;
    [rewrite (marker_set _ Hsep) | rewrite (marker_unset _ Hsep)]);
  (destruct (is_set (cls_token params)) eqn:Hcls;
    [rewrite (marker_set _ Hcls) | ]);
  destruct (cls_token_at_end params);
  destruct tokens_b as [[|y tb]|]; simpl;
  rewrite ?length_app, ?app_nil_r, ?Nat.add_0_r; simpl;
  rewrite ?replicate_add; simpl;
  repeat (progress (rewrite <- ?app_assoc; simpl)); reflexivity.
Qed.

Lemma assembly_order_length (tokens_a : list string) (tokens_b : option (list string)) :
  let r := assembly_order_spec params tokens_a tokens_b in
  length r.2 = length r.1
  /\ len r.1 =
     (len tokens_a
      + (if is_set (bos_token params) then 1 else 0)
      + (if is_set (eos_token params) then 1 else 0)
      + match tokens_b with
        | Some tb =>
            len tb + (if is_set (sep_token_extra params) then 1 else 0)
            + (if is_set (bos_token params) then 1 else 0)
            + (if is_set (eos_token params) then 1 else 0)
        | None => 0
        end
      + (if is_set (cls_token params) then 1 else 0))%Z.
Proof.
  unfold assembly_order_spec, len.
  destruct (is_set (cls_token params)) eqn:Hcls;
    [destruct (cls_token_at_end params)|]; simpl;
    rewrite ?length_app, ?length_cons, ?length_replicate, ?length_app; simpl;
    destruct tokens_b as [tb|];
    rewrite ?length_app, ?length_replicate, ?length_app, ?marker_length, ?Hcls;
    simpl;
    destruct (is_set (bos_token params)), (is_set (eos_token params)),
      (is_set (sep_token_extra params)); simpl; lia.
Qed.

(** Lines 109-125 in cases: with a second text the pair goes through
    [_truncate_seq_pair] on the reserved budget; a single text keeps a
    prefix. *)
Lemma tokenize_and_truncate_pair (example : InputExample) :
  is_set (text_b example) = true ->
  tokenize_and_truncate params L example
  = '(a, b) ← _truncate_seq_pair (text_to_tokens (text_a example))
                (text_to_tokens (tok (text_b example)))
                (L - special_tokens_count_pair params);
    mret (a, Some b).
Proof. intros Hb. unfold tokenize_and_truncate. by rewrite Hb. Qed.

Lemma tokenize_and_truncate_single (example : InputExample) :
  is_set (text_b example) = false ->
  tokenize_and_truncate params L example
  = Ok (if (len (text_to_tokens (text_a example))
             >? L - special_tokens_count_single params)%Z
        then py_slice_to (text_to_tokens (text_a example))
               (L - special_tokens_count_single params)
        else text_to_tokens (text_a example), None).
Proof. intros Hb. unfold tokenize_and_truncate. by rewrite Hb. Qed.

Lemma py_slice_to_prefix {T} (l : list T) (k : Z) : py_slice_to l k `prefix_of` l.
Proof. unfold py_slice_to. destruct (k <? 0)%Z; apply prefix_take. Qed.

Lemma py_slice_to_len {T} (l : list T) (k : Z) :
  (0 <= k)%Z -> (len (py_slice_to l k) <= k)%Z.
Proof.
  intros Hk. unfold py_slice_to, len.
  destruct (Z.ltb_spec k 0); [lia|]. rewrite length_take. lia.
Qed.

Lemma tokenize_and_truncate_cases (example : InputExample) :
  (exists a b, tokenize_and_truncate params L example = Ok (a, b)
     /\ a `prefix_of` text_to_tokens (text_a example)
     /\ (is_set (text_b example) = true ->
           (0 <= L - special_tokens_count_pair params)%Z
           /\ exists tb, b = Some tb
                /\ tb `prefix_of` text_to_tokens (tok (text_b example))
                /\ (len a + len tb <= L - special_tokens_count_pair params)%Z)
     /\ (is_set (text_b example) = false ->
           b = None
           /\ ((0 <= L - special_tokens_count_single params)%Z ->
               (len a <= L - special_tokens_count_single params)%Z)))
  \/ (is_set (text_b example) = true
      /\ (L - special_tokens_count_pair params < 0)%Z
      /\ tokenize_and_truncate params L example
         = Raise (IndexError "pop from empty list")).
Proof.
  destruct (is_set (text_b example)) eqn:Hb.
  - rewrite (tokenize_and_truncate_pair _ Hb).
    destruct (truncate_seq_pair_cases (text_to_tokens (text_a example))
                (text_to_tokens (tok (text_b example)))
                (L - special_tokens_count_pair params))
      as [(HB & a & b & -> & Ha & Hbp & Hfit)|(HB & ->)].
    + left. exists a, (Some b). simpl. split; [done|]. split; [done|].
      split; [|done]. intros _. split; [done|]. by exists b.
    + right. done.
  - left. rewrite (tokenize_and_truncate_single _ Hb).
    eexists _, None. split; [reflexivity|]. split; [|split; [done|]].
    + destruct (_ >? _)%Z; [apply py_slice_to_prefix | done].
    + intros _. split; [done|]. intros HB.
      destruct (Z.gtb_spec (len (text_to_tokens (text_a example)))
                  (L - special_tokens_count_single params)); [|lia].
      by apply py_slice_to_len.
Qed.

(** Lines 158-180 in closed form: the checks pass exactly when the
    ids fit [L] and the segment ids run parallel to them. *)
Lemma pad_and_check_ok (tokens : list string) (segs : list Z) (pid : Z) (rest : list Z) :
  tokens_to_ids [pad_token params] = pid :: rest ->
  (len (tokens_to_ids tokens) <= L)%Z ->
  length segs = length (tokens_to_ids tokens) ->
  let raw := tokens_to_ids tokens in
  let p := Z.to_nat (L - len raw) in
  pad_and_check params L tokens segs
  = Ok (pad_side params (replicate p pid) raw,
        pad_side params (replicate p (padding_mask_value params))
          (replicate (length raw) (real_mask_value params)),
        pad_side params (replicate p (pad_token_segment_id params)) segs).
Proof.
  intros Hpad Hfit Hsegs raw p.
  unfold pad_and_check, pad_side, padding_mask_value, real_mask_value.
  rewrite Hpad. simpl. fold raw. rewrite py_repeat_len.
  unfold py_repeat. fold p.
  assert (Hp : (Z.of_nat p + len raw = L)%Z) by (unfold p, raw, len in *; lia).
  destruct (pad_on_left params); unfold len in *;
    rewrite !length_app, !length_replicate, Hsegs; fold raw;
    replace (Z.of_nat (p + length raw) =? L)%Z with true by (symmetry; apply Z.eqb_eq; lia);
    replace (Z.of_nat (length raw + p) =? L)%Z with true by (symmetry; apply Z.eqb_eq; lia);
    reflexivity.
Qed.

Lemma pad_and_check_too_long (tokens : list string) (segs : list Z) (pid : Z) (rest : list Z) :
  tokens_to_ids [pad_token params] = pid :: rest ->
  (L < len (tokens_to_ids tokens))%Z ->
  pad_and_check params L tokens segs
  = Raise (ValueError "input_ids must be of length max_seq_length").
Proof.
  intros Hpad Hlong. unfold pad_and_check. rewrite Hpad. simpl.
  unfold py_repeat.
  replace (Z.to_nat (L - len (tokens_to_ids tokens))) with 0 by lia.
  destruct (pad_on_left params); simpl; rewrite ?app_nil_r;
    replace (len (tokens_to_ids tokens) =? L)%Z with false
      by (symmetry; apply Z.eqb_neq; lia); reflexivity.
Qed.

Lemma pad_and_check_inv (tokens : list string) (segs ids mask sg : list Z) :
  pad_and_check params L tokens segs = Ok (ids, mask, sg) ->
  let raw := tokens_to_ids tokens in
  let p := Z.to_nat (L - len raw) in
  exists pid rest,
    tokens_to_ids [pad_token params] = pid :: rest
    /\ (len raw <= L)%Z
    /\ length segs = length raw
    /\ ids = pad_side params (replicate p pid) raw
    /\ mask = pad_side params (replicate p (padding_mask_value params))
                (replicate (length raw) (real_mask_value params))
    /\ sg = pad_side params (replicate p (pad_token_segment_id params)) segs.
Proof.
  intros Heq raw p.
  destruct (tokens_to_ids [pad_token params]) as [|pid rest] eqn:Hpad.
  { unfold pad_and_check in Heq. rewrite Hpad in Heq. discriminate. }
  exists pid, rest. split; [done|].
  destruct (Z.le_gt_cases (len raw) L) as [Hfit|Hlong].
  - destruct (decide (length segs = length raw)) as [Hsegs|Hsegs].
    + rewrite (pad_and_check_ok _ _ _ _ Hpad Hfit Hsegs) in Heq.
      injection Heq as <- <- <-. done.
    + exfalso. unfold pad_and_check in Heq. rewrite Hpad in Heq. simpl in Heq.
      fold raw in Heq. unfold py_repeat in Heq. fold p in Heq.
      destruct (pad_on_left params); unfold len in *;
        rewrite !length_app, !length_replicate in Heq;
        repeat match type of Heq with
               | context [negb (?x =? ?y)%Z] =>
                   destruct (Z.eqb_spec x y); simpl in Heq; try discriminate
               end;
        lia.
  - by rewrite (pad_and_check_too_long _ _ _ _ Hpad) in Heq.
Qed.

Lemma pad_and_check_fuel (tokens : list string) (segs : list Z) :
  pad_and_check params L tokens segs <> OutOfFuel.
Proof.
  unfold pad_and_check.
  destruct (tokens_to_ids [pad_token params]); simpl; [done|].
  destruct (pad_on_left params);
    repeat (destruct (negb _); [done|]); done.
Qed.

(** The loop bound is never what stops the encoder. *)
Lemma assemble_fuel (example : InputExample) :
  assemble params L example <> OutOfFuel.
Proof.
  unfold assemble.
  destruct (tokenize_and_truncate_cases example)
    as [(a & b & -> & _)|(_ & _ & ->)]; done.
Qed.

Lemma encode_sequences_fuel (example : InputExample) :
  encode_sequences params L example <> OutOfFuel.
Proof.
  unfold encode_sequences.
  pose proof (assemble_fuel example) as Hf.
  destruct (assemble params L example) as [[tokens segs]| |]; simpl; [|done|done].
  apply pad_and_check_fuel.
Qed.

Lemma convert_example_fuel (output_mode : string) (label_map : gmap string nat)
    (example : InputExample) :
  convert_example np_float32 params L output_mode label_map example <> OutOfFuel.
Proof.
  unfold convert_example.
  pose proof (encode_sequences_fuel example) as Hf.
  destruct (encode_sequences params L example) as [[[ids mask] sg]| |]; simpl; [|done|done].
  unfold resolve_label.
  destruct (String.eqb output_mode "classification").
  { by destruct (label_map !! label example). }
  destruct (String.eqb output_mode "regression"); [|done].
  by destruct (np_float32 (label example)).
Qed.

End EncoderFacts.

(** ** The length of the emitted sequences *)

(** Every record that is emitted has the three sequences of length [L]. *)
Lemma emitted_lengths `{tokenizer : Tokenizer} {float32 : Type}
    (np_float32 : string -> option float32) (params : TokenParams) (L : Z)
    (output_mode : string) (label_map : gmap string nat) (example : InputExample)
    (f : InputFeatures float32) :
  convert_example np_float32 params L output_mode label_map example = Ok f ->
  len (input_ids f) = L /\ len (input_mask f) = L /\ len (segment_ids f) = L.
Proof.
  unfold convert_example, encode_sequences. intros Heq.
  destruct (assemble params L example) as [[tokens segs]| |]; simpl in Heq; try discriminate.
  destruct (pad_and_check params L tokens segs) as [[[ids mask] sg]| |] eqn:Hpad;
    simpl in Heq; try discriminate.
  destruct (resolve_label _ _ _ _); simpl in Heq; try discriminate.
  injection Heq as <-. simpl.
  destruct (pad_and_check_inv _ _ _ _ _ _ _ Hpad)
    as (pid & rest & _ & Hfit & Hsegs & -> & -> & ->).
  unfold pad_side, len in *.
  destruct (pad_on_left params);
    rewrite !length_app, !length_replicate, ?Hsegs; lia.
Qed.

(** With two texts and a budget that is not negative, the assembled
    sequence fits [L] and the sequences are produced. *)
Lemma encode_sequences_pair_ok `{tokenizer : Tokenizer}
    (params : TokenParams) (L : Z) (example : InputExample) :
  length_preserving tokenizer ->
  is_set (text_b example) = true ->
  (0 <= L - special_tokens_count_pair params)%Z ->
  is_ok (encode_sequences params L example) = true.
Proof.
  intros Hlen Hb HB. unfold encode_sequences, assemble.
  destruct (tokenize_and_truncate_cases params L example)
    as [(a & b & -> & _ & Hpair & _)|(_ & Hneg & _)]; [|lia].
  destruct (Hpair Hb) as (_ & tb & -> & _ & Hfit). simpl.
  rewrite add_special_tokens_order.
  pose proof (assembly_order_length params a (if nonempty (Some tb) then Some tb else None))
    as [Hsegs Htok].
  destruct (assembly_order_spec params a _) as [tokens segs]. cbn [fst snd] in *.
  destruct (tokens_to_ids [pad_token params]) as [|pid rest] eqn:Hpad.
  { pose proof (Hlen [pad_token params]) as Hl. rewrite Hpad in Hl. discriminate. }
  rewrite (pad_and_check_ok params L tokens segs pid rest Hpad); [done| |by rewrite Hlen].
  unfold len in *. rewrite Hlen. unfold special_tokens_count_pair in *.
  clear Hpair. pose proof (len_nonneg tb). unfold len in *.
  destruct tb; cbn [nonempty] in Htok;
    case_markers params; lia.
Qed.

(** With one text the sequences are produced when the classification
    marker is unset, or when the unused slot of [sep_token_extra] makes
    room for it. *)
Lemma encode_sequences_single_ok `{tokenizer : Tokenizer}
    (params : TokenParams) (L : Z) (example : InputExample) :
  length_preserving tokenizer ->
  is_set (text_b example) = false ->
  is_set (cls_token params) = false \/ is_set (sep_token_extra params) = true ->
  (0 <= L - special_tokens_count_single params)%Z ->
  is_ok (encode_sequences params L example) = true.
Proof.
  intros Hlen Hb Hroom HB. unfold encode_sequences, assemble.
  destruct (tokenize_and_truncate_cases params L example)
    as [(a & b & -> & _ & _ & Hsingle)|(Hb' & _)]; [|congruence].
  destruct (Hsingle Hb) as (-> & Hfit). specialize (Hfit HB). simpl.
  rewrite add_special_tokens_order.
  pose proof (assembly_order_length params a None) as [Hsegs Htok].
  simpl. destruct (assembly_order_spec params a None) as [tokens segs]. simpl in *.
  destruct (tokens_to_ids [pad_token params]) as [|pid rest] eqn:Hpad.
  { pose proof (Hlen [pad_token params]) as Hl. rewrite Hpad in Hl. discriminate. }
  rewrite (pad_and_check_ok params L tokens segs pid rest Hpad); [done| |by rewrite Hlen].
  unfold len in *. rewrite Hlen. unfold special_tokens_count_single in *.
  destruct Hroom as [Hc|Hs]; rewrite ?Hc, ?Hs in *;
    case_markers params; lia.
Qed.

(** With one text, the classification marker set and no
    [sep_token_extra], a text that fills the reserved budget is
    assembled into [L + 1] tokens and the first length check raises. *)
Lemma single_text_cls_overflow `{tokenizer : Tokenizer}
    (params : TokenParams) (L : Z) (example : InputExample) :
  length_preserving tokenizer ->
  is_set (text_b example) = false ->
  is_set (cls_token params) = true ->
  is_set (sep_token_extra params) = false ->
  (0 <= L - special_tokens_count_single params)%Z ->
  (L - special_tokens_count_single params <= len (text_to_tokens (text_a example)))%Z ->
  encode_sequences params L example
  = Raise (ValueError "input_ids must be of length max_seq_length").
Proof.
  intros Hlen Hb Hcls Hsep HB Hlong. unfold encode_sequences, assemble.
  rewrite (tokenize_and_truncate_single params L example Hb). simpl.
  rewrite add_special_tokens_order. simpl.
  set (a := if (_ >? _)%Z then _ else _).
  assert (Ha : len a = (L - special_tokens_count_single params)%Z).
  { unfold a. destruct (Z.gtb_spec (len (text_to_tokens (text_a example)))
                          (L - special_tokens_count_single params)); [|lia].
    unfold py_slice_to, len in *.
    destruct (Z.ltb_spec (L - special_tokens_count_single params) 0); [lia|].
    rewrite length_take. lia. }
  pose proof (assembly_order_length params a None) as [Hsegs Htok].
  destruct (assembly_order_spec params a None) as [tokens segs]. simpl in *.
  destruct (tokens_to_ids [pad_token params]) as [|pid rest] eqn:Hpad.
  { pose proof (Hlen [pad_token params]) as Hl. rewrite Hpad in Hl. discriminate. }
  apply (pad_and_check_too_long params L tokens segs pid rest Hpad).
  unfold len in *. rewrite Hlen. unfold special_tokens_count_single in *.
  rewrite Hcls, Hsep in *.
  destruct (is_set (bos_token params)), (is_set (eos_token params)); lia.
Qed.

(** C1: the length invariant is broken by the defaults on one long
    text.  With [max_seq_length = 4] and five tokens, the one-text
    branch reserves a slot for [SEP] only, keeps three tokens, and the
    added [CLS] makes five ids: the check of line 175 raises, for the
    example alone and for the batch. *)
Theorem length_check_raises_on_long_single_text :
  encode_sequences default_params 4 (example_of "a b c d e" None "pos")
    = Raise (ValueError "input_ids must be of length max_seq_length")
  /\ assemble default_params 4 (example_of "a b c d e" None "pos")
     = Ok (["[CLS]"; "a"; "b"; "c"; "[SEP]"], [0; 0; 0; 0; 0]%Z)
  /\ convert_examples_to_features no_float default_params 4 "classification"
       [example_of "a b c d e" None "pos"] ["neg"; "pos"]
     = Raise (ValueError "input_ids must be of length max_seq_length").
Proof. vm_compute. auto. Qed.

(** ** The reserved slots *)

(** C2, as stated, fails: with one text and [sep_token_extra] set the
    code reserves a slot for it, which the description counts only when
    two texts are present. *)
Lemma reserved_single_counts_extra_sep :
  special_tokens_count_single extra_sep_params = 2%Z
  /\ reserved_slots_spec extra_sep_params false = 1%Z
  /\ special_tokens_count_single extra_sep_params
     <> reserved_slots_spec extra_sep_params false.
Proof. vm_compute. repeat split; discriminate. Qed.

(** C2, amended: with two texts the reserved count is 2 for [eos_token],
    1 for [sep_token_extra], 2 for [bos_token] and 1 for [cls_token],
    each when set, and [_truncate_seq_pair] receives [L] minus that sum;
    with one text (and [cls_token] unset) it is 1 for [eos_token], 1 for
    [sep_token_extra] -- counted although no second text follows -- and
    1 for [bos_token], and [tokens_a] keeps its first [L] minus that sum
    tokens when it is longer. *)
Theorem reserved_slots_by_branch `{tokenizer : Tokenizer}
    (params : TokenParams) (L : Z) (example : InputExample) :
  (is_set (text_b example) = true ->
     special_tokens_count_pair params = reserved_slots_spec params true
     /\ tokenize_and_truncate params L example
        = '(a, b) ← _truncate_seq_pair (text_to_tokens (text_a example))
                      (text_to_tokens (tok (text_b example)))
                      (L - reserved_slots_spec params true);
          mret (a, Some b))
  /\ (is_set (text_b example) = false ->
      is_set (cls_token params) = false ->
      let reserved :=
        (reserved_slots_spec params false
         + if is_set (sep_token_extra params) then 1 else 0)%Z in
      special_tokens_count_single params = reserved
      /\ tokenize_and_truncate params L example
         = Ok (if (len (text_to_tokens (text_a example)) >? L - reserved)%Z
               then py_slice_to (text_to_tokens (text_a example)) (L - reserved)
               else text_to_tokens (text_a example), None)).
Proof.
  split.
  - intros Hb.
    assert (Hc : special_tokens_count_pair params = reserved_slots_spec params true).
    { unfold special_tokens_count_pair, reserved_slots_spec.
      case_markers params; reflexivity. }
    split; [exact Hc|]. rewrite <- Hc. by apply tokenize_and_truncate_pair.
  - intros Hb Hcls reserved.
    assert (Hc : special_tokens_count_single params = reserved).
    { unfold reserved, special_tokens_count_single, reserved_slots_spec.
      rewrite Hcls.
      destruct (is_set (bos_token params)), (is_set (eos_token params)),
        (is_set (sep_token_extra params)); reflexivity. }
    split; [exact Hc|]. rewrite <- Hc. by apply tokenize_and_truncate_single.
Qed.

Lemma reserved_slots_by_branch_witness :
  (special_tokens_count_pair default_params = 3%Z
   /\ tokenize_and_truncate default_params 8 (example_of "a bb ccc" (Some "dd e") "neg")
      = '(a, b) ← _truncate_seq_pair ["a"; "bb"; "ccc"] ["dd"; "e"] (8 - 3);
        mret (a, Some b))
  /\ (special_tokens_count_single extra_sep_params = 2%Z
      /\ tokenize_and_truncate extra_sep_params 4 (example_of "a b c d e" None "pos")
         = Ok (["a"; "b"], None)).
Proof.
  split.
  - exact (proj1 (reserved_slots_by_branch default_params 8
                    (example_of "a bb ccc" (Some "dd e") "neg")) eq_refl).
  - exact (proj2 (reserved_slots_by_branch extra_sep_params 4
                    (example_of "a b c d e" None "pos")) eq_refl eq_refl).
Defined.

(** ** The order of assembly *)

(** C5, as stated, fails: the second group is tied to a non-empty
    [tokens_b], not to the presence of a second text.  With the defaults
    and [max_seq_length = 4] the budget is 1, the tie drops the only
    token of [tokens_b], and the closing [SEP] of the second text is
    not added although two texts are present. *)
Lemma second_group_needs_tokens_b :
  tokenize_and_truncate default_params 4 (example_of "a" (Some "b") "pos")
    = Ok (["a"], Some [])
  /\ assemble default_params 4 (example_of "a" (Some "b") "pos")
     = Ok (["[CLS]"; "a"; "[SEP]"], [0; 0; 0]%Z)
  /\ assembly_order_spec default_params ["a"] (Some [])
     = (["[CLS]"; "a"; "[SEP]"; "[SEP]"], [0; 0; 0; 1]%Z)
  /\ assemble default_params 4 (example_of "a" (Some "b") "pos")
     <> Ok (assembly_order_spec default_params ["a"] (Some []))
  /\ encode_sequences default_params 4 (example_of "a" (Some "b") "pos")
     = Ok ([1; 6; 2; 0]%Z, [1; 1; 1; 0]%Z, [0; 0; 0; 0]%Z).
Proof. vm_compute. repeat split; discriminate. Qed.

(** C5, amended: the sequence before padding and its segment ids are,
    in this order, optional [bos_token], [tokens_a], optional
    [eos_token] (all with [sequence_a_segment_id]); then, only when
    [tokens_b] is present and still non-empty after truncation,
    optional [sep_token_extra] ([sequence_a_segment_id]), optional
    [bos_token], [tokens_b], optional [eos_token]
    ([sequence_b_segment_id]); finally [cls_token] in front, or at the
    end when [cls_token_at_end] is set, with [cls_token_segment_id].
    The assembly is produced for one text, and for two texts when the
    budget is not negative. *)
Theorem assemble_follows_order `{tokenizer : Tokenizer}
    (params : TokenParams) (L : Z) (example : InputExample) :
  (forall tokens segs,
      assemble params L example = Ok (tokens, segs) ->
      exists tokens_a tokens_b,
        tokenize_and_truncate params L example = Ok (tokens_a, tokens_b)
        /\ tokens_a `prefix_of` text_to_tokens (text_a example)
        /\ (is_set (text_b example) = false -> tokens_b = None)
        /\ (is_set (text_b example) = true ->
              exists tb, tokens_b = Some tb
                /\ tb `prefix_of` text_to_tokens (tok (text_b example)))
        /\ (tokens, segs)
           = assembly_order_spec params tokens_a
               (if nonempty tokens_b then tokens_b else None)
        /\ length segs = length tokens)
  /\ (is_set (text_b example) = false
      \/ (0 <= L - special_tokens_count_pair params)%Z ->
      is_ok (assemble params L example) = true).
Proof.
  unfold assemble.
  destruct (tokenize_and_truncate_cases params L example)
    as [(a & b & Heq & Ha & Hpair & Hsingle)|(Hb & Hneg & Heq)]; rewrite Heq; simpl.
  - split; [|done].
    intros tokens segs Hasm. injection Hasm as Hasm.
    exists a, b. split; [done|]. split; [done|].
    split; [intros Hb; by destruct (Hsingle Hb)|].
    split.
    { intros Hb. destruct (Hpair Hb) as (_ & tb & -> & Htb & _). by exists tb. }
    rewrite add_special_tokens_order in Hasm.
    pose proof (assembly_order_length params a (if nonempty b then b else None)) as [Hl _].
    destruct (assembly_order_spec params a _) as [t s]. simpl in *.
    injection Hasm as <- <-. done.
  - split; [done|]. intros [Hb'|HB]; [congruence | lia].
Qed.

Lemma assemble_follows_order_witness :
  exists tokens_a tokens_b,
    tokenize_and_truncate default_params 8 (example_of "a bb ccc" (Some "dd e") "neg")
      = Ok (tokens_a, tokens_b)
    /\ (["[CLS]"; "a"; "bb"; "ccc"; "[SEP]"; "dd"; "e"; "[SEP]"], [0; 0; 0; 0; 0; 1; 1; 1]%Z)
       = assembly_order_spec default_params tokens_a
           (if nonempty tokens_b then tokens_b else None).
Proof.
  destruct (proj1 (assemble_follows_order (tokenizer := demo_tokenizer) default_params 8
                     (example_of "a bb ccc" (Some "dd e") "neg"))
              ["[CLS]"; "a"; "bb"; "ccc"; "[SEP]"; "dd"; "e"; "[SEP]"]
              [0; 0; 0; 0; 0; 1; 1; 1]%Z eq_refl)
    as (tokens_a & tokens_b & Heq & _ & _ & _ & Horder & _).
  exists tokens_a, tokens_b. split; [exact Heq | exact Horder].
Defined.

(** ** Padding, the mask and the classification marker *)

Lemma pad_side_lookup_content {T} (params : TokenParams) (padding content : list T) (i : nat) :
  i < length content ->
  pad_side params padding content !! ((if pad_on_left params then length padding else 0) + i)
  = content !! i.
Proof.
  intros Hi. unfold pad_side. destruct (pad_on_left params).
  - rewrite lookup_app_r by lia. f_equal. lia.
  - by apply lookup_app_l.
Qed.

Lemma pad_side_lookup_padding {T} (params : TokenParams) (x : T) (p : nat)
    (content : list T) (i : nat) :
  i < p + length content ->
  i < (if pad_on_left params then p else 0)
  \/ (if pad_on_left params then p else 0) + length content <= i ->
  pad_side params (replicate p x) content !! i = Some x.
Proof.
  intros Hi Hout. unfold pad_side. destruct (pad_on_left params).
  - destruct Hout as [Hlt|Hge]; [|lia].
    rewrite lookup_app_l by (rewrite length_replicate; lia).
    by apply lookup_replicate_2.
  - destruct Hout as [Hlt|Hge]; [lia|].
    rewrite lookup_app_r by lia. apply lookup_replicate_2. lia.
Qed.

Lemma pad_side_length {T} (params : TokenParams) (padding content : list T) :
  length (pad_side params padding content) = length padding + length content.
Proof. unfold pad_side. destruct (pad_on_left params); rewrite length_app; lia. Qed.

Lemma filter_replicate_same (x : Z) (n : nat) :
  filter (fun v => v = x) (replicate n x) = replicate n x.
Proof.
  induction n as [|n IH]; [done|]. simpl.
  rewrite filter_cons_True by done. by rewrite IH.
Qed.

Lemma filter_replicate_other (x y : Z) (n : nat) :
  x <> y -> filter (fun v => v = x) (replicate n y) = [].
Proof.
  intros Hne. induction n as [|n IH]; [done|]. simpl.
  rewrite filter_cons_False by congruence. exact IH.
Qed.

Lemma mask_values_differ (params : TokenParams) :
  real_mask_value params <> padding_mask_value params.
Proof.
  unfold real_mask_value, padding_mask_value.
  by destruct (mask_padding_with_zero params).
Qed.

Lemma assemble_inv `{tokenizer : Tokenizer} (params : TokenParams) (L : Z)
    (example : InputExample) (tokens : list string) (segs : list Z) :
  assemble params L example = Ok (tokens, segs) ->
  exists tokens_a tokens_b,
    tokenize_and_truncate params L example = Ok (tokens_a, tokens_b)
    /\ (tokens, segs)
       = assembly_order_spec params tokens_a (if nonempty tokens_b then tokens_b else None)
    /\ length segs = length tokens.
Proof.
  unfold assemble. intros Hasm.
  destruct (tokenize_and_truncate params L example) as [[a b]| |];
    simpl in Hasm; try discriminate.
  injection Hasm as Hasm. rewrite add_special_tokens_order in Hasm.
  exists a, b. split; [done|].
  pose proof (assembly_order_length params a (if nonempty b then b else None)) as [Hl _].
  rewrite Hasm in Hl. by rewrite Hasm.
Qed.

(** C6: when the assembled tokens fit [L], the emitted mask holds the
    "real" value (1 under [mask_padding_with_zero], else 0) once per
    assembled token and the "padding" value in every other position:
    the number of real entries is the number of tokens placed by
    assembly, which is [L] minus the number of padding entries. *)
Theorem mask_counts `{tokenizer : Tokenizer} (params : TokenParams) (L : Z)
    (example : InputExample) (tokens : list string) (segs : list Z) :
  length_preserving tokenizer ->
  assemble params L example = Ok (tokens, segs) ->
  (len tokens <= L)%Z ->
  let n := length tokens in
  let p := Z.to_nat (L - len tokens) in
  exists ids mask sg,
    encode_sequences params L example = Ok (ids, mask, sg)
    /\ mask = pad_side params (replicate p (padding_mask_value params))
                (replicate n (real_mask_value params))
    /\ length (filter (fun v => v = real_mask_value params) mask) = n
    /\ length (filter (fun v => v = padding_mask_value params) mask) = p
    /\ Z.of_nat n = (L - Z.of_nat p)%Z
    /\ length ids = n + p
    /\ length mask = n + p
    /\ forall (float32 : Type) (np_float32 : string -> option float32)
         (output_mode : string) (label_map : gmap string nat) (f : InputFeatures float32),
         convert_example np_float32 params L output_mode label_map example = Ok f ->
         input_mask f = mask.
Proof.
  intros Hlen Hasm Hfit n p.
  destruct (assemble_inv _ _ _ _ _ Hasm) as (a & b & _ & _ & Hsegs).
  destruct (tokens_to_ids [pad_token params]) as [|pid rest] eqn:Hpad.
  { pose proof (Hlen [pad_token params]) as Hl. rewrite Hpad in Hl. discriminate. }
  assert (Henc : encode_sequences params L example
                 = Ok (pad_side params (replicate p pid) (tokens_to_ids tokens),
                       pad_side params (replicate p (padding_mask_value params))
                         (replicate n (real_mask_value params)),
                       pad_side params (replicate p (pad_token_segment_id params)) segs)).
  { unfold encode_sequences. rewrite Hasm. simpl.
    rewrite (pad_and_check_ok params L tokens segs pid rest Hpad).
    - unfold len, p, n. by rewrite !Hlen.
    - unfold len in *. by rewrite Hlen.
    - by rewrite Hlen. }
  eexists _, _, _. split; [exact Henc|]. split; [reflexivity|].
  pose proof (mask_values_differ params) as Hne.
  split; [|split; [|split; [|split; [|split]]]].
  - unfold pad_side. destruct (pad_on_left params);
      rewrite filter_app, filter_replicate_same, filter_replicate_other by done;
      rewrite ?app_nil_r; simpl; apply length_replicate.
  - unfold pad_side. destruct (pad_on_left params);
      rewrite filter_app, filter_replicate_same, filter_replicate_other by done;
      rewrite ?app_nil_r; simpl; apply length_replicate.
  - unfold n, p, len in *. lia.
  - rewrite pad_side_length, length_replicate, Hlen. unfold n. lia.
  - rewrite pad_side_length, !length_replicate. lia.
  - intros float32 np_float32 output_mode label_map f Hf.
    unfold convert_example in Hf. rewrite Henc in Hf. simpl in Hf.
    destruct (resolve_label _ _ _ _); simpl in Hf; try discriminate.
    by injection Hf as <-.
Qed.

Lemma mask_counts_witness :
  exists ids mask sg,
    encode_sequences default_params 8 (example_of "a bb ccc" None "pos") = Ok (ids, mask, sg)
    /\ mask = [1; 1; 1; 1; 1; 0; 0; 0]%Z
    /\ length (filter (fun v => v = 1%Z) mask) = 5
    /\ length (filter (fun v => v = 0%Z) mask) = 3.
Proof.
  destruct (mask_counts (tokenizer := demo_tokenizer) default_params 8
              (example_of "a bb ccc" None "pos")
              ["[CLS]"; "a"; "bb"; "ccc"; "[SEP]"] [0; 0; 0; 0; 0]%Z
              (fun tokens => length_fmap demo_token_id tokens) eq_refl ltac:(done))
    as (ids & mask & sg & Henc & Hmask & Hreal & Hpadding & _).
  exists ids, mask, sg. split; [exact Henc|]. split; [exact Hmask|].
  split; [exact Hreal | exact Hpadding].
Defined.

(** C4, as stated, fails: with [cls_token_at_end] false and padding on
    the left, the first entries of the emitted sequences are padding,
    not the classification marker. *)
Lemma cls_not_first_with_left_padding :
  encode_sequences left_pad_params 6 (example_of "a bb" None "pos")
    = Ok ([0; 0; 1; 6; 7; 2]%Z, [0; 0; 1; 1; 1; 1]%Z, [4; 4; 2; 0; 0; 0]%Z)
  /\ demo_token_id "[CLS]" = 1%Z
  /\ head [0; 0; 1; 6; 7; 2]%Z <> Some (demo_token_id "[CLS]")
  /\ head [4; 4; 2; 0; 0; 0]%Z <> Some (cls_token_segment_id left_pad_params).
Proof. vm_compute. repeat split; discriminate. Qed.

(** C4, amended: for every encoded example with [cls_token] set, the
    classification marker with [cls_token_segment_id] is the first
    non-padding entry when [cls_token_at_end] is false and the last
    non-padding entry when it is true.  The non-padding entries are the
    positions [p .. p + n - 1] of the emitted sequences, where [n] is
    the number of assembled tokens and [p] is the padding length when
    padding is on the left and 0 otherwise; every other position holds
    the padding id, segment id and mask value. *)
Theorem cls_placement `{tokenizer : Tokenizer} (token_id : string -> Z)
    (params : TokenParams) (L : Z) (example : InputExample)
    (tokens : list string) (segs ids mask sg : list Z) :
  pointwise tokenizer token_id ->
  is_set (cls_token params) = true ->
  assemble params L example = Ok (tokens, segs) ->
  encode_sequences params L example = Ok (ids, mask, sg) ->
  let n := length tokens in
  let p := if pad_on_left params then Z.to_nat (L - len tokens) else 0 in
  let k := if cls_token_at_end params then n - 1 else 0 in
  0 < n /\ Z.of_nat (length ids) = L /\ length sg = length ids /\ p + n <= length ids
  /\ tokens !! k = Some (tok (cls_token params))
  /\ segs !! k = Some (cls_token_segment_id params)
  /\ ids !! (p + k) = Some (token_id (tok (cls_token params)))
  /\ sg !! (p + k) = Some (cls_token_segment_id params)
  /\ (forall i, i < length ids -> i < p \/ p + n <= i ->
        ids !! i = Some (token_id (pad_token params))
        /\ sg !! i = Some (pad_token_segment_id params)
        /\ mask !! i = Some (padding_mask_value params))
  /\ (forall i, p <= i < p + n -> mask !! i = Some (real_mask_value params)).
Proof.
  intros Hpw Hcls Hasm Henc n p k.
  destruct (assemble_inv _ _ _ _ _ Hasm) as (a & b & _ & Horder & Hsegs).
  unfold encode_sequences in Henc. rewrite Hasm in Henc. simpl in Henc.
  destruct (pad_and_check_inv _ _ _ _ _ _ _ Henc)
    as (pid & rest & Hpad & Hfit & _ & -> & -> & ->).
  rewrite (Hpw [pad_token params]) in Hpad. injection Hpad as <- <-.
  rewrite (Hpw tokens) in *. unfold len in *. rewrite length_fmap in *.
  fold n in Hfit, Hsegs |- *.
  set (P := Z.to_nat (L - Z.of_nat n)) in *.
  assert (Hp : p = if pad_on_left params then P else 0) by done.
  (* where the marker sits in the assembled sequence *)
  assert (Hk : 0 < n /\ tokens !! k = Some (tok (cls_token params))
               /\ segs !! k = Some (cls_token_segment_id params)).
  { unfold k. clear -Horder Hcls Hsegs. subst n.
    unfold assembly_order_spec in Horder. rewrite Hcls, (marker_set _ Hcls) in Horder.
    set (body := marker (bos_token params) ++ _) in Horder.
    set (segs0 := replicate _ _ ++ _) in Horder.
    destruct (cls_token_at_end params); injection Horder as -> ->.
    - rewrite !length_app in *. simpl in *.
      replace (length body + 1 - 1) with (length body) by lia.
      split; [lia|]. split; [by apply list_lookup_middle|].
      apply list_lookup_middle. lia.
    - simpl. split; [lia | done]. }
  destruct Hk as (Hn & Htok & Hseg).
  assert (Hkn : k < n) by (unfold k; destruct (cls_token_at_end params); lia).
  rewrite !pad_side_length, !length_replicate, length_fmap. fold n.
  split; [done|]. split; [unfold P; lia|]. split; [lia|].
  split; [rewrite Hp; destruct (pad_on_left params); lia|].
  split; [done|]. split; [done|].
  assert (Hoff : forall x : Z, p = if pad_on_left params then length (replicate P x) else 0).
  { intros x. by rewrite length_replicate. }
  split; [|split; [|split]].
  - rewrite (Hoff (token_id (pad_token params))).
    rewrite pad_side_lookup_content by (rewrite length_fmap; done).
    by rewrite list_lookup_fmap, Htok.
  - rewrite (Hoff (pad_token_segment_id params)).
    rewrite pad_side_lookup_content by lia. done.
  - intros i Hi Hout. rewrite Hp in Hout.
    split; [|split]; apply pad_side_lookup_padding;
      rewrite ?length_fmap, ?length_replicate; fold n; rewrite ?Hsegs; lia || done.
  - intros i Hi.
    pose proof (pad_side_lookup_content params
                  (replicate P (padding_mask_value params))
                  (replicate n (real_mask_value params)) (i - p)) as Hlk.
    rewrite !length_replicate, <- Hp in Hlk.
    replace (p + (i - p)) with i in Hlk by lia.
    rewrite Hlk by lia. apply lookup_replicate_2. lia.
Qed.

Lemma cls_placement_witness :
  ([0; 0; 1; 6; 7; 2]%Z !! 2 = Some (demo_token_id "[CLS]")
   /\ [4; 4; 2; 0; 0; 0]%Z !! 2 = Some 2%Z)
  /\ ([0; 0; 6; 7; 2; 1]%Z !! 5 = Some (demo_token_id "[CLS]")
      /\ [4; 4; 0; 0; 0; 2]%Z !! 5 = Some 2%Z).
Proof.
  split.
  - destruct (cls_placement (tokenizer := demo_tokenizer) demo_token_id left_pad_params 6
                (example_of "a bb" None "pos")
                ["[CLS]"; "a"; "bb"; "[SEP]"] [2; 0; 0; 0]%Z
                [0; 0; 1; 6; 7; 2]%Z [0; 0; 1; 1; 1; 1]%Z [4; 4; 2; 0; 0; 0]%Z
                (fun _ => eq_refl) eq_refl eq_refl eq_refl)
      as (_ & _ & _ & _ & _ & _ & Hid & Hsg & _).
    split; [exact Hid | exact Hsg].
  - destruct (cls_placement (tokenizer := demo_tokenizer) demo_token_id xlnet_params 6
                (example_of "a bb" None "pos")
                ["a"; "bb"; "[SEP]"; "[CLS]"] [0; 0; 0; 2]%Z
                [0; 0; 6; 7; 2; 1]%Z [0; 0; 1; 1; 1; 1]%Z [4; 4; 0; 0; 0; 2]%Z
                (fun _ => eq_refl) eq_refl eq_refl eq_refl)
      as (_ & _ & _ & _ & _ & _ & Hid & Hsg & _).
    split; [exact Hid | exact Hsg].
Defined.

(** ** Labels *)

(** C7: in classification mode, for a label that occurs in the
    vocabulary, the emitted label id is a zero-based index of that
    string in the vocabulary -- the only one when the vocabulary has
    distinct entries, and the last one otherwise. *)
Theorem classification_label_index `{tokenizer : Tokenizer} {float32 : Type}
    (np_float32 : string -> option float32) (params : TokenParams) (L : Z)
    (label_list : list string) (example : InputExample) (ids mask sg : list Z) :
  label example ∈ label_list ->
  encode_sequences params L example = Ok (ids, mask, sg) ->
  exists i,
    convert_example np_float32 params L "classification"
      (make_label_map label_list) example
    = Ok {| input_ids := ids; input_mask := mask; segment_ids := sg;
            label_id := ClassIndex i |}
    /\ convert_examples_to_features np_float32 params L "classification"
         [example] label_list
       = Ok [{| input_ids := ids; input_mask := mask; segment_ids := sg;
                label_id := ClassIndex i |}]
    /\ label_list !! i = Some (label example)
    /\ (forall j, label_list !! j = Some (label example) -> j <= i)
    /\ (NoDup label_list -> forall j, label_list !! j = Some (label example) -> j = i).
Proof.
  intros Hin Henc.
  destruct (make_label_map_present label_list (label example) Hin) as (i & Hmap & Hi & Hmax).
  exists i.
  assert (Hconv : convert_example np_float32 params L "classification"
                    (make_label_map label_list) example
                  = Ok {| input_ids := ids; input_mask := mask; segment_ids := sg;
                          label_id := ClassIndex i |}).
  { unfold convert_example, resolve_label. rewrite Henc. simpl. by rewrite Hmap. }
  split; [exact Hconv|]. split.
  { unfold convert_examples_to_features. simpl. by rewrite Hconv. }
  split; [done|]. split; [done|].
  intros Hnd j Hj. by eapply NoDup_lookup.
Qed.

Lemma classification_label_index_witness :
  convert_example no_float default_params 8 "classification"
    (make_label_map ["neg"; "pos"]) (example_of "a bb ccc" None "pos")
  = Ok {| input_ids := [1; 6; 7; 8; 2; 0; 0; 0]%Z;
          input_mask := [1; 1; 1; 1; 1; 0; 0; 0]%Z;
          segment_ids := [0; 0; 0; 0; 0; 0; 0; 0]%Z;
          label_id := ClassIndex 1 |}.
Proof.
  destruct (classification_label_index (tokenizer := demo_tokenizer) no_float
              default_params 8 ["neg"; "pos"] (example_of "a bb ccc" None "pos")
              [1; 6; 7; 8; 2; 0; 0; 0]%Z [1; 1; 1; 1; 1; 0; 0; 0]%Z
              [0; 0; 0; 0; 0; 0; 0; 0]%Z
              ltac:(apply (bool_decide_unpack _); reflexivity) eq_refl)
    as (i & Hconv & _ & _ & _ & Huniq).
  assert (Hi : 1 = i).
  { apply Huniq; [|reflexivity]. apply (bool_decide_unpack _). reflexivity. }
  rewrite Hconv, <- Hi. reflexivity.
Defined.

(** C8: in classification mode a label that is absent from the
    vocabulary makes the label lookup raise [KeyError] on that label,
    and an output mode other than "classification" and "regression"
    makes it raise [KeyError] on the mode; in both cases the encoding of
    the example raises, with that very exception once the sequences of
    lines 109-180 have been built. *)
Theorem label_failures `{tokenizer : Tokenizer} {float32 : Type}
    (np_float32 : string -> option float32) (params : TokenParams) (L : Z)
    (output_mode : string) (label_list : list string) (example : InputExample) :
  let label_map := make_label_map label_list in
  let raised_with (e : exn) :=
    resolve_label np_float32 output_mode label_map example = Raise e
    /\ is_raise (convert_example np_float32 params L output_mode label_map example) = true
    /\ (is_ok (encode_sequences params L example) = true ->
        convert_example np_float32 params L output_mode label_map example = Raise e
        /\ convert_examples_to_features np_float32 params L output_mode
             [example] label_list = Raise e) in
  (output_mode = "classification" -> label example ∉ label_list ->
     raised_with (KeyError (label example)))
  /\ (output_mode <> "classification" -> output_mode <> "regression" ->
      raised_with (KeyError output_mode)).
Proof.
  intros label_map raised_with.
  assert (Hgen : forall e,
             resolve_label np_float32 output_mode label_map example = Raise e ->
             raised_with e).
  { intros e Hres. unfold raised_with. split; [exact Hres|].
    pose proof (encode_sequences_fuel params L example) as Hfuel.
    unfold convert_examples_to_features, convert_loop, convert_example.
    fold label_map.
    destruct (encode_sequences params L example) as [[[ids mask] sg]| |];
      simpl; [|done|done].
    rewrite Hres. simpl. done. }
  split.
  - intros -> Hout. apply Hgen. unfold resolve_label, label_map. simpl.
    by rewrite make_label_map_absent.
  - intros Hc Hr. apply Hgen. unfold resolve_label.
    apply String.eqb_neq in Hc, Hr. by rewrite Hc, Hr.
Qed.

Lemma label_failures_witness :
  (convert_example no_float default_params 8 "classification"
     (make_label_map ["neg"; "pos"]) (example_of "a bb ccc" None "neutral")
   = Raise (KeyError "neutral"))
  /\ (convert_example no_float default_params 8 "ranking"
        (make_label_map ["neg"; "pos"]) (example_of "a bb ccc" None "pos")
      = Raise (KeyError "ranking")).
Proof.
  split.
  - destruct (proj1 (label_failures (tokenizer := demo_tokenizer) no_float
                       default_params 8 "classification" ["neg"; "pos"]
                       (example_of "a bb ccc" None "neutral"))
                eq_refl ltac:(apply (bool_decide_unpack _); reflexivity))
      as (_ & _ & Hconv).
    exact (proj1 (Hconv eq_refl)).
  - destruct (proj2 (label_failures (tokenizer := demo_tokenizer) no_float
                       default_params 8 "ranking" ["neg"; "pos"]
                       (example_of "a bb ccc" None "pos"))
                ltac:(discriminate) ltac:(discriminate))
      as (_ & _ & Hconv).
    exact (proj1 (Hconv eq_refl)).
Defined.

(** ** The batch *)

(** The loop either appends one record per example, or stops at the
    first example whose encoding raises and raises the same. *)
Lemma convert_loop_cases `{tokenizer : Tokenizer} {float32 : Type}
    (np_float32 : string -> option float32) (params : TokenParams) (L : Z)
    (output_mode : string) (label_map : gmap string nat) (examples : list InputExample) :
  forall features : list (InputFeatures float32),
  (exists new,
      convert_loop np_float32 params L output_mode label_map examples features
        = Ok (features ++ new)
      /\ Forall2 (fun ex f =>
           convert_example np_float32 params L output_mode label_map ex = Ok f)
           examples new)
  \/ (exists pre bad post err,
         examples = pre ++ bad :: post
         /\ Forall (fun ex =>
              is_ok (convert_example np_float32 params L output_mode label_map ex) = true)
              pre
         /\ convert_example np_float32 params L output_mode label_map bad = Raise err
         /\ convert_loop np_float32 params L output_mode label_map examples features
            = Raise err).
Proof.
  induction examples as [|ex rest IH]; intros features.
  { left. exists []. split; [by rewrite app_nil_r | constructor]. }
  simpl.
  pose proof (convert_example_fuel np_float32 params L output_mode label_map ex) as Hfuel.
  destruct (convert_example np_float32 params L output_mode label_map ex)
    as [f|err|] eqn:Hex; [| |done].
  - simpl. destruct (IH (features ++ [f]))
      as [(new & -> & Hall)|(pre & bad & post & err & -> & Hpre & Hbad & ->)].
    + left. exists (f :: new). split; [by rewrite <- app_assoc|]. by constructor.
    + right. exists (ex :: pre), bad, post, err. split; [done|].
      split; [|done]. constructor; [by rewrite Hex | done].
  - right. exists [], ex, rest, err. simpl. done.
Qed.

(** C10: the batch encoder returns a feature list only when every
    example is encoded; if the encoding of any example raises, the
    call raises the exception of the first such example and the records
    built before it are not returned. *)
Theorem batch_all_or_nothing `{tokenizer : Tokenizer} {float32 : Type}
    (np_float32 : string -> option float32) (params : TokenParams) (L : Z)
    (output_mode : string) (label_list : list string) (examples : list InputExample) :
  let encode := convert_example np_float32 params L output_mode (make_label_map label_list) in
  let batch := convert_examples_to_features np_float32 params L output_mode
                 examples label_list in
  (forall example err,
      example ∈ examples -> encode example = Raise err ->
      is_raise batch = true
      /\ exists pre bad post err',
           examples = pre ++ bad :: post
           /\ Forall (fun ex => is_ok (encode ex) = true) pre
           /\ encode bad = Raise err'
           /\ batch = Raise err')
  /\ (forall features,
        batch = Ok features -> Forall2 (fun ex f => encode ex = Ok f) examples features)
  /\ (Forall (fun ex => is_ok (encode ex) = true) examples -> is_ok batch = true).
Proof.
  intros encode batch.
  destruct (convert_loop_cases np_float32 params L output_mode
              (make_label_map label_list) examples [])
    as [(new & Hloop & Hall)|(pre & bad & post & err' & Hsplit & Hpre & Hbad & Hloop)];
    subst encode batch; unfold convert_examples_to_features; rewrite Hloop; simpl.
  - split; [|split; [|done]].
    + intros example err Hin Herr. exfalso.
      apply list_elem_of_lookup in Hin as [i Hi].
      destruct (Forall2_lookup_l _ _ _ _ _ Hall Hi) as (f & _ & Hf).
      congruence.
    + intros features [= <-]. exact Hall.
  - split; [|split; [done|]].
    + intros example err Hin Herr. split; [done|]. by exists pre, bad, post, err'.
    + intros Hok. exfalso. rewrite Hsplit in Hok.
      apply Forall_app in Hok as [_ Hok]. apply Forall_cons in Hok as [Hok _].
      by rewrite Hbad in Hok.
Qed.

Lemma batch_all_or_nothing_witness :
  is_raise (convert_examples_to_features no_float default_params 8 "classification"
              mixed_batch ["neg"; "pos"]) = true
  /\ exists pre bad post err',
       mixed_batch = pre ++ bad :: post
       /\ Forall (fun ex =>
            is_ok (convert_example no_float default_params 8 "classification"
                     (make_label_map ["neg"; "pos"]) ex) = true) pre
       /\ convert_example no_float default_params 8 "classification"
            (make_label_map ["neg"; "pos"]) bad = Raise err'
       /\ convert_examples_to_features no_float default_params 8 "classification"
            mixed_batch ["neg"; "pos"] = Raise err'.
Proof.
  apply (proj1 (batch_all_or_nothing (tokenizer := demo_tokenizer) no_float
                  default_params 8 "classification" ["neg"; "pos"] mixed_batch)
           (example_of "a b c d e" None "neutral") (KeyError "neutral")).
  - apply list_elem_of_further, list_elem_of_here.
  - reflexivity.
Defined.

(** * Further properties of the truncation *)

(** Linear arithmetic with the halves of the budget. *)
Ltac half_lia := zify; Z.to_euclidean_division_equations; lia.

Lemma truncate_loop_closed_form {T} fuel : forall (a b : list T) B,
  (0 <= B)%Z ->
  Z.to_nat (len a + len b - B) < fuel ->
  truncate_loop fuel a b B
  = Ok (take (kept_a (length a) (length b) B) a, take (kept_b (length a) (length b) B) b).
Proof.
  induction fuel as [|fuel IH]; intros a b B HB Hf; [lia|].
  rewrite truncate_loop_unfold.
  destruct (Z.leb_spec (len a + len b) B) as [Hfit|Hbig].
  { unfold len, kept_a, kept_b in *. rewrite !take_ge by half_lia. done. }
  destruct (Z.gtb_spec (len a) (len b)) as [Hgt|Hle].
  - destruct (snoc_cases a) as [->|(a0 & x & ->)].
    { rewrite len_nil in Hgt. pose proof (len_nonneg b). lia. }
    rewrite pop_snoc. simpl. rewrite len_snoc in *.
    rewrite IH; [|done|lia]. rewrite length_app. simpl.
    unfold len, kept_a, kept_b in *.
    rewrite take_app_le by half_lia.
    do 2 f_equal; f_equal; half_lia.
  - destruct (snoc_cases b) as [->|(b0 & x & ->)].
    { rewrite len_nil in *. pose proof (len_nonneg a). lia. }
    rewrite pop_snoc. simpl. rewrite len_snoc in *.
    rewrite IH; [|done|lia]. rewrite length_app. simpl.
    unfold len, kept_a, kept_b in *.
    rewrite (take_app_le b0) by half_lia.
    do 2 f_equal; f_equal; half_lia.
Qed.

(** X1: for a budget that is not negative, [_truncate_seq_pair] keeps
    the first [min(n, max(B - m, ceil(B/2)))] tokens of [tokens_a] and
    the first [min(m, max(B - n, floor(B/2)))] tokens of [tokens_b],
    [n] and [m] being the two lengths; a pair that fits is returned
    as it is. *)
Theorem truncate_seq_pair_closed_form {T} (tokens_a tokens_b : list T) (budget : Z) :
  (0 <= budget)%Z ->
  _truncate_seq_pair tokens_a tokens_b budget
  = Ok (take (kept_a (length tokens_a) (length tokens_b) budget) tokens_a,
        take (kept_b (length tokens_a) (length tokens_b) budget) tokens_b)
  /\ ((len tokens_a + len tokens_b <= budget)%Z ->
      _truncate_seq_pair tokens_a tokens_b budget = Ok (tokens_a, tokens_b)).
Proof.
  intros HB. unfold _truncate_seq_pair.
  rewrite truncate_loop_closed_form by (unfold len; lia).
  split; [done|]. intros Hfit.
  unfold len, kept_a, kept_b in *. rewrite !take_ge by half_lia. done.
Qed.

Lemma truncate_seq_pair_closed_form_witness :
  _truncate_seq_pair ["a"; "b"; "c"; "d"; "e"] ["f"; "g"; "h"; "i"; "j"] 7
  = Ok (["a"; "b"; "c"; "d"], ["f"; "g"; "h"]).
Proof.
  exact (proj1 (truncate_seq_pair_closed_form
                  ["a"; "b"; "c"; "d"; "e"] ["f"; "g"; "h"; "i"; "j"] 7 ltac:(lia))).
Defined.

(** X2: the truncation spares the short sequence.  For a budget that
    is not negative, [tokens_a] is returned whole when it has at most
    [ceil(B/2)] tokens and [tokens_b] when it has at most [floor(B/2)];
    neither sequence is cut below that half, and when both are cut they
    keep exactly [ceil(B/2)] and [floor(B/2)] tokens. *)
Theorem truncate_seq_pair_spares_short {T} (tokens_a tokens_b : list T) (budget : Z) :
  (0 <= budget)%Z ->
  exists a' b',
    _truncate_seq_pair tokens_a tokens_b budget = Ok (a', b')
    /\ ((len tokens_a <= (budget + 1) / 2)%Z -> a' = tokens_a)
    /\ ((len tokens_b <= budget / 2)%Z -> b' = tokens_b)
    /\ (Z.min (len tokens_a) ((budget + 1) / 2) <= len a')%Z
    /\ (Z.min (len tokens_b) (budget / 2) <= len b')%Z
    /\ ((len a' < len tokens_a)%Z -> (len b' < len tokens_b)%Z ->
        len a' = ((budget + 1) / 2)%Z /\ len b' = (budget / 2)%Z).
Proof.
  intros HB. eexists _, _. split.
  { unfold _truncate_seq_pair. apply truncate_loop_closed_form; [done|].
    unfold len. lia. }
  unfold len, kept_a, kept_b. rewrite !length_take.
  split; [intros H; apply take_ge; half_lia|].
  split; [intros H; apply take_ge; half_lia|].
  split; [half_lia|]. split; [half_lia|]. half_lia.
Qed.

Lemma truncate_seq_pair_spares_short_witness :
  exists a' b',
    _truncate_seq_pair ["a"; "b"; "c"; "d"; "e"; "f"] ["g"; "h"] 5 = Ok (a', b')
    /\ b' = ["g"; "h"].
Proof.
  destruct (truncate_seq_pair_spares_short
              ["a"; "b"; "c"; "d"; "e"; "f"] ["g"; "h"] 5 ltac:(lia))
    as (a' & b' & Heq & _ & Hb & _).
  exists a', b'. split; [exact Heq|]. apply Hb. vm_compute. discriminate.
Defined.

Lemma drop_one_budget_mono {T} (B1 B2 : Z) (s t : list T * list T) :
  (B2 <= B1)%Z -> drop_one B1 s t -> drop_one B2 s t.
Proof. intros HB [a b x H1 H2|a b x H1 H2]; constructor; lia || done. Qed.

Lemma drop_steps_budget_mono {T} (B1 B2 : Z) n (s t : list T * list T) :
  (B2 <= B1)%Z -> nsteps (drop_one B1) n s t -> nsteps (drop_one B2) n s t.
Proof.
  intros HB. induction 1 as [|n s t u Hst _ IH]; [constructor|].
  eapply nsteps_l; [by eapply drop_one_budget_mono | done].
Qed.

(** X3: truncations compose.  Truncating to a budget and then to a
    smaller one (not negative) gives what truncating to the smaller
    budget gives at once; in particular a second truncation to the same
    budget changes nothing. *)
Theorem truncate_seq_pair_compose {T} (tokens_a tokens_b : list T) (B1 B2 : Z) :
  (0 <= B2)%Z -> (B2 <= B1)%Z ->
  exists a1 b1,
    _truncate_seq_pair tokens_a tokens_b B1 = Ok (a1, b1)
    /\ _truncate_seq_pair a1 b1 B2 = _truncate_seq_pair tokens_a tokens_b B2
    /\ _truncate_seq_pair a1 b1 B1 = Ok (a1, b1).
Proof.
  intros HB2 HB. assert (HB1 : (0 <= B1)%Z) by lia.
  unfold _truncate_seq_pair.
  destruct (truncate_loop_run (S (length tokens_a + length tokens_b))
              tokens_a tokens_b B1 HB1) as [Hrun1 _].
  destruct Hrun1 as (a1 & b1 & Heq1 & Hsteps1 & Hfit1); [unfold len; lia|].
  exists a1, b1. split; [exact Heq1|].
  destruct (drop_steps_prefix _ _ _ _ Hsteps1) as (_ & _ & Hlen1). simpl in Hlen1.
  split.
  - destruct (truncate_loop_run (S (length a1 + length b1)) a1 b1 B2 HB2) as [Hrun2 _].
    destruct Hrun2 as (a2 & b2 & Heq2 & Hsteps2 & Hfit2); [unfold len; lia|].
    destruct (truncate_loop_run (S (length tokens_a + length tokens_b))
                tokens_a tokens_b B2 HB2) as [Hrun _].
    destruct Hrun as (a' & b' & Heq & Hsteps & Hfit); [unfold len; lia|].
    rewrite Heq2, Heq. f_equal.
    pose proof (nsteps_trans _ _ _ _ _
                  (drop_steps_budget_mono B1 B2 _ _ _ HB Hsteps1) Hsteps2) as Hcat.
    eapply drop_steps_deterministic; [exact Hcat|].
    replace (_ + _) with (Z.to_nat (len tokens_a + len tokens_b - B2)); [exact Hsteps|].
    unfold len in *. lia.
  - rewrite truncate_loop_unfold.
    destruct (Z.leb_spec (len a1 + len b1) B1); [done | lia].
Qed.

Lemma truncate_seq_pair_compose_witness :
  exists a1 b1,
    _truncate_seq_pair ["a"; "b"; "c"; "d"; "e"] ["f"; "g"; "h"; "i"] 6 = Ok (a1, b1)
    /\ _truncate_seq_pair a1 b1 3
       = _truncate_seq_pair ["a"; "b"; "c"; "d"; "e"] ["f"; "g"; "h"; "i"] 3.
Proof.
  destruct (truncate_seq_pair_compose
              ["a"; "b"; "c"; "d"; "e"] ["f"; "g"; "h"; "i"] 6 3 ltac:(lia) ltac:(lia))
    as (a1 & b1 & Heq1 & Heq2 & _).
  exists a1, b1. split; [exact Heq1 | exact Heq2].
Defined.

(** * Further properties of the label dictionary *)

(** X4: the label dictionary reads back the list it was built from.  A
    string has no entry exactly when it is not in [label_list]; every
    entry [i] of a string is a position of that string in the list; and
    when the list has no repetition, each position is the entry of its
    string. *)
Theorem label_map_round_trip (label_list : list string) (s : string) :
  (make_label_map label_list !! s = None <-> s ∉ label_list)
  /\ (forall i, make_label_map label_list !! s = Some i ->
        label_list !! i = Some s /\ i < length label_list)
  /\ (NoDup label_list -> forall i,
        label_list !! i = Some s -> make_label_map label_list !! s = Some i).
Proof.
  destruct (decide (s ∈ label_list)) as [Hin|Hout].
  - destruct (make_label_map_present label_list s Hin) as (j & Hj & Hlook & _).
    split; [|split].
    + rewrite Hj. split; [discriminate | done].
    + intros i Hi. rewrite Hj in Hi. injection Hi as <-.
      split; [done|]. by eapply lookup_lt_Some.
    + intros Hnd i Hi. rewrite Hj. f_equal. by eapply NoDup_lookup.
  - pose proof (make_label_map_absent label_list s Hout) as Hnone.
    split; [|split].
    + by rewrite Hnone.
    + intros i Hi. by rewrite Hnone in Hi.
    + intros _ i Hi. exfalso. apply Hout. by eapply list_elem_of_lookup_2.
Qed.

Lemma label_map_round_trip_witness :
  make_label_map ["entailment"; "neutral"; "contradiction"] !! "neutral" = Some 1.
Proof.
  apply (proj2 (proj2 (label_map_round_trip
                         ["entailment"; "neutral"; "contradiction"] "neutral"))).
  - apply (bool_decide_unpack _). reflexivity.
  - reflexivity.
Defined.

(** * Further properties of the encoder *)

(** X5: whatever the tokenizer returns, a batch that is encoded yields
    one record per example, and in each record the ids, the mask and
    the segment ids have exactly [max_seq_length] entries. *)
Theorem batch_records_have_length `{tokenizer : Tokenizer} {float32 : Type}
    (np_float32 : string -> option float32) (params : TokenParams) (L : Z)
    (output_mode : string) (label_list : list string) (examples : list InputExample)
    (features : list (InputFeatures float32)) :
  convert_examples_to_features np_float32 params L output_mode examples label_list
    = Ok features ->
  length features = length examples
  /\ Forall (fun f => len (input_ids f) = L /\ len (input_mask f) = L
                      /\ len (segment_ids f) = L) features.
Proof.
  unfold convert_examples_to_features. intros Heq.
  destruct (convert_loop_cases np_float32 params L output_mode
              (make_label_map label_list) examples [])
    as [(new & Hloop & Hall)|(pre & bad & post & err & _ & _ & _ & Hloop)];
    rewrite Hloop in Heq; [|discriminate].
  injection Heq as <-. simpl.
  split; [symmetry; by eapply Forall2_length|].
  clear Hloop. induction Hall as [|ex f exs fs Hf _ IH]; constructor; [|done].
  by eapply emitted_lengths.
Qed.

Lemma batch_records_have_length_witness :
  exists features,
    convert_examples_to_features no_float default_params 8 "classification"
      [example_of "a bb ccc" None "pos"; example_of "a bb ccc" (Some "dd e") "neg"]
      ["neg"; "pos"] = Ok features
    /\ length features = 2
    /\ Forall (fun f => len (input_ids f) = 8%Z /\ len (input_mask f) = 8%Z
                        /\ len (segment_ids f) = 8%Z) features.
Proof.
  eexists. split; [vm_compute; reflexivity|].
  apply (batch_records_have_length (tokenizer := demo_tokenizer) no_float default_params 8
           "classification" ["neg"; "pos"]
           [example_of "a bb ccc" None "pos"; example_of "a bb ccc" (Some "dd e") "neg"]).
  vm_compute. reflexivity.
Defined.

(** X6: for a tokenizer that returns one id per token and a
    [max_seq_length] that holds the reserved slots, the three sequences
    are produced -- no length check and no [pop] raises -- for every
    example with two texts, and for every example with one text when
    [cls_token] is unset or [sep_token_extra] is set. *)
Theorem sequences_produced `{tokenizer : Tokenizer}
    (params : TokenParams) (L : Z) (example : InputExample) :
  length_preserving tokenizer ->
  (is_set (text_b example) = true /\ (0 <= L - special_tokens_count_pair params)%Z)
  \/ (is_set (text_b example) = false
      /\ (0 <= L - special_tokens_count_single params)%Z
      /\ (is_set (cls_token params) = false \/ is_set (sep_token_extra params) = true)) ->
  exists ids mask sg,
    encode_sequences params L example = Ok (ids, mask, sg)
    /\ len ids = L /\ len mask = L /\ len sg = L.
Proof.
  intros Hlen Hcase.
  assert (Hok : is_ok (encode_sequences params L example) = true).
  { destruct Hcase as [[Hb HB]|(Hb & HB & Hroom)].
    - by apply encode_sequences_pair_ok.
    - by apply encode_sequences_single_ok. }
  destruct (encode_sequences params L example) as [[[ids mask] sg]| |] eqn:Henc;
    try discriminate.
  exists ids, mask, sg. split; [done|].
  unfold encode_sequences in Henc.
  destruct (assemble params L example) as [[tokens segs]| |]; try discriminate.
  simpl in Henc.
  destruct (pad_and_check_inv _ _ _ _ _ _ _ Henc)
    as (pid & rest & _ & Hfit & Hsegs & -> & -> & ->).
  unfold len in *. rewrite !pad_side_length, !length_replicate, ?Hsegs. lia.
Qed.

Lemma sequences_produced_witness :
  exists ids mask sg,
    encode_sequences default_params 6
      (example_of "a bb ccc dddd" (Some "e ff ggg") "neg") = Ok (ids, mask, sg)
    /\ len ids = 6%Z /\ len mask = 6%Z /\ len sg = 6%Z.
Proof.
  apply (sequences_produced (tokenizer := demo_tokenizer) default_params 6
           (example_of "a bb ccc dddd" (Some "e ff ggg") "neg")
           (fun tokens => length_fmap demo_token_id tokens)).
  left. split; [reflexivity | vm_compute; discriminate].
Defined.

(** X7: with one text, [cls_token] set and [sep_token_extra] unset, a
    text of at least [max_seq_length - reserved] tokens (the reserved
    slots of the one-text branch being held by [max_seq_length]) is
    assembled into [max_seq_length + 1] tokens; for a tokenizer that
    returns one id per token the check of line 175 raises, whatever
    the label and the output mode. *)
Theorem long_single_text_raises `{tokenizer : Tokenizer} {float32 : Type}
    (np_float32 : string -> option float32) (params : TokenParams) (L : Z)
    (output_mode : string) (label_map : gmap string nat) (example : InputExample) :
  length_preserving tokenizer ->
  is_set (text_b example) = false ->
  is_set (cls_token params) = true ->
  is_set (sep_token_extra params) = false ->
  (0 <= L - special_tokens_count_single params)%Z ->
  (L - special_tokens_count_single params <= len (text_to_tokens (text_a example)))%Z ->
  (exists tokens segs,
     assemble params L example = Ok (tokens, segs) /\ len tokens = (L + 1)%Z)
  /\ convert_example np_float32 params L output_mode label_map example
     = Raise (ValueError "input_ids must be of length max_seq_length").
Proof.
  intros Hlen Hb Hcls Hsep HB Hlong. split.
  - unfold assemble. rewrite (tokenize_and_truncate_single params L example Hb). simpl.
    rewrite add_special_tokens_order. simpl.
    set (a := if (_ >? _)%Z then _ else _).
    assert (Ha : len a = (L - special_tokens_count_single params)%Z).
    { unfold a. destruct (Z.gtb_spec (len (text_to_tokens (text_a example)))
                            (L - special_tokens_count_single params)); [|lia].
      unfold py_slice_to, len in *.
      destruct (Z.ltb_spec (L - special_tokens_count_single params) 0); [lia|].
      rewrite length_take. lia. }
    pose proof (assembly_order_length params a None) as [_ Htok].
    destruct (assembly_order_spec params a None) as [tokens segs]. simpl in *.
    exists tokens, segs. split; [done|].
    rewrite Htok, Ha. unfold special_tokens_count_single. rewrite Hcls, Hsep.
    destruct (is_set (bos_token params)), (is_set (eos_token params)); lia.
  - unfold convert_example.
    by rewrite (single_text_cls_overflow params L example Hlen Hb Hcls Hsep HB Hlong).
Qed.

Lemma long_single_text_raises_witness :
  convert_example no_float default_params 6 "regression" ∅
    (example_of "a bb ccc dddd e ff" None "0.5")
  = Raise (ValueError "input_ids must be of length max_seq_length").
Proof.
  apply (long_single_text_raises (tokenizer := demo_tokenizer) no_float default_params 6
           "regression" ∅ (example_of "a bb ccc dddd e ff" None "0.5")
           (fun tokens => length_fmap demo_token_id tokens));
    try reflexivity; vm_compute; discriminate.
Defined.

(** X8: with two texts and a [max_seq_length] below the reserved
    slots, the truncation empties both sequences and the example raises
    [IndexError] from [pop], before any length check and whatever the
    texts, the label and the output mode. *)
Theorem pair_below_reserved_raises `{tokenizer : Tokenizer} {float32 : Type}
    (np_float32 : string -> option float32) (params : TokenParams) (L : Z)
    (output_mode : string) (label_map : gmap string nat) (example : InputExample) :
  is_set (text_b example) = true ->
  (L < special_tokens_count_pair params)%Z ->
  tokenize_and_truncate params L example = Raise (IndexError "pop from empty list")
  /\ convert_example np_float32 params L output_mode label_map example
     = Raise (IndexError "pop from empty list").
Proof.
  intros Hb HL.
  assert (Htr : tokenize_and_truncate params L example
                = Raise (IndexError "pop from empty list")).
  { destruct (tokenize_and_truncate_cases params L example)
      as [(a & b & _ & _ & Hpair & _)|(_ & _ & Heq)]; [|done].
    destruct (Hpair Hb) as [HB _]. lia. }
  split; [exact Htr|].
  unfold convert_example, encode_sequences, assemble. by rewrite Htr.
Qed.

Lemma pair_below_reserved_raises_witness :
  convert_example no_float default_params 2 "classification"
    (make_label_map ["neg"; "pos"]) (example_of "a bb" (Some "c") "pos")
  = Raise (IndexError "pop from empty list").
Proof.
  apply (pair_below_reserved_raises (tokenizer := demo_tokenizer) no_float default_params 2
           "classification" (make_label_map ["neg"; "pos"])
           (example_of "a bb" (Some "c") "pos")); reflexivity.
Defined.

(** X9: with one text, the tokens kept are the first
    [max_seq_length - reserved] tokens of the text (all of them when
    there are fewer); when [max_seq_length] is below the reserved
    slots the slice counts from the end instead and drops the last
    [reserved - max_seq_length] tokens.  No exception is raised by this
    step. *)
Theorem single_text_keeps_prefix `{tokenizer : Tokenizer}
    (params : TokenParams) (L : Z) (example : InputExample) :
  is_set (text_b example) = false ->
  let budget := (L - special_tokens_count_single params)%Z in
  let tokens_a := text_to_tokens (text_a example) in
  tokenize_and_truncate params L example
  = Ok (take (Z.to_nat (if (budget <? 0)%Z then len tokens_a + budget else budget))
          tokens_a, None).
Proof.
  intros Hb budget tokens_a.
  rewrite (tokenize_and_truncate_single params L example Hb).
  fold budget tokens_a. unfold py_slice_to. f_equal. f_equal.
  destruct (Z.gtb_spec (len tokens_a) budget) as [Hgt|Hle].
  - by destruct (budget <? 0)%Z.
  - pose proof (len_nonneg tokens_a).
    destruct (Z.ltb_spec budget 0); [lia|].
    symmetry. apply take_ge. unfold len in *. lia.
Qed.

Lemma single_text_keeps_prefix_witness :
  tokenize_and_truncate extra_sep_params 5 (example_of "a bb ccc dddd" None "pos")
  = Ok (["a"; "bb"; "ccc"], None).
Proof.
  exact (single_text_keeps_prefix (tokenizer := demo_tokenizer) extra_sep_params 5
           (example_of "a bb ccc dddd" None "pos") eq_refl).
Defined.

(** X10: the padding sits on one side only.  In an encoded example
    the ids are the tokenizer's ids of the assembled tokens with
    [max_seq_length - len(ids)] copies of the id of [pad_token] before
    them when [pad_on_left] is set and after them otherwise; the mask
    and the segment ids are padded on the same side by the same amount,
    with the padding mask value and [pad_token_segment_id]. *)
Theorem padding_layout `{tokenizer : Tokenizer} (params : TokenParams) (L : Z)
    (example : InputExample) (tokens : list string) (segs ids mask sg : list Z) :
  assemble params L example = Ok (tokens, segs) ->
  encode_sequences params L example = Ok (ids, mask, sg) ->
  let raw := tokens_to_ids tokens in
  let p := Z.to_nat (L - len raw) in
  exists pid,
    head (tokens_to_ids [pad_token params]) = Some pid
    /\ (Z.of_nat p + len raw = L)%Z
    /\ length segs = length raw
    /\ if pad_on_left params then
         ids = replicate p pid ++ raw
         /\ mask = replicate p (padding_mask_value params)
                   ++ replicate (length raw) (real_mask_value params)
         /\ sg = replicate p (pad_token_segment_id params) ++ segs
       else
         ids = raw ++ replicate p pid
         /\ mask = replicate (length raw) (real_mask_value params)
                   ++ replicate p (padding_mask_value params)
         /\ sg = segs ++ replicate p (pad_token_segment_id params).
Proof.
  intros Hasm Henc raw p.
  unfold encode_sequences in Henc. rewrite Hasm in Henc. simpl in Henc.
  destruct (pad_and_check_inv _ _ _ _ _ _ _ Henc)
    as (pid & rest & Hpad & Hfit & Hsegs & -> & -> & ->).
  exists pid. rewrite Hpad. split; [done|].
  split; [unfold p, raw, len in *; lia|]. split; [done|].
  unfold pad_side. by destruct (pad_on_left params).
Qed.

Lemma padding_layout_witness :
  exists pid,
    head (tokens_to_ids ["[PAD]"]) = Some pid
    /\ [0; 0; 6; 7; 2; 1]%Z = replicate 2 pid ++ tokens_to_ids ["a"; "bb"; "[SEP]"; "[CLS]"]
    /\ [4; 4; 0; 0; 0; 2]%Z = replicate 2 4%Z ++ [0; 0; 0; 2]%Z.
Proof.
  destruct (padding_layout (tokenizer := demo_tokenizer) xlnet_params 6
              (example_of "a bb" None "pos")
              ["a"; "bb"; "[SEP]"; "[CLS]"] [0; 0; 0; 2]%Z
              [0; 0; 6; 7; 2; 1]%Z [0; 0; 1; 1; 1; 1]%Z [4; 4; 0; 0; 0; 2]%Z
              eq_refl eq_refl)
    as (pid & Hpid & _ & _ & Hids & _ & Hsg).
  exists pid. split; [exact Hpid|]. split; [exact Hids | exact Hsg].
Defined.

Lemma assembly_segs_values (params : TokenParams) (tokens_a : list string)
    (tokens_b : option (list string)) (P : Z -> Prop) :
  P (sequence_a_segment_id params) ->
  P (cls_token_segment_id params) ->
  (tokens_b <> None -> P (sequence_b_segment_id params)) ->
  Forall P (assembly_order_spec params tokens_a tokens_b).2.
Proof.
  intros Ha Hc Hb. unfold assembly_order_spec.
  assert (Hsegs : Forall P
    (replicate (length (marker (bos_token params) ++ tokens_a ++ marker (eos_token params)))
       (sequence_a_segment_id params)
     ++ match tokens_b with
        | Some tb =>
            replicate (length (marker (sep_token_extra params)))
              (sequence_a_segment_id params)
            ++ replicate (length (marker (bos_token params) ++ tb
                                  ++ marker (eos_token params)))
                 (sequence_b_segment_id params)
        | None => []
        end)).
  { apply Forall_app. split; [by apply Forall_replicate|].
    destruct tokens_b as [tb|]; [|constructor].
    apply Forall_app. split; apply Forall_replicate; [done|]. by apply Hb. }
  destruct (is_set (cls_token params)); [|done].
  destruct (cls_token_at_end params); simpl.
  - apply Forall_app. split; [done|]. by constructor.
  - by constructor.
Qed.

(** X11: an emitted record holds nothing but the configured values.
    Every mask entry is 0 or 1, and every segment id is one of
    [sequence_a_segment_id], [sequence_b_segment_id],
    [cls_token_segment_id] and [pad_token_segment_id]; for an example
    with one text [sequence_b_segment_id] is not among them. *)
Theorem emitted_values `{tokenizer : Tokenizer} {float32 : Type}
    (np_float32 : string -> option float32) (params : TokenParams) (L : Z)
    (output_mode : string) (label_map : gmap string nat) (example : InputExample)
    (f : InputFeatures float32) :
  convert_example np_float32 params L output_mode label_map example = Ok f ->
  Forall (fun v => v = 0%Z \/ v = 1%Z) (input_mask f)
  /\ Forall (fun s => s ∈ [sequence_a_segment_id params; sequence_b_segment_id params;
                           cls_token_segment_id params; pad_token_segment_id params])
       (segment_ids f)
  /\ (is_set (text_b example) = false ->
      Forall (fun s => s ∈ [sequence_a_segment_id params; cls_token_segment_id params;
                            pad_token_segment_id params])
        (segment_ids f)).
Proof.
  unfold convert_example, encode_sequences. intros Heq.
  destruct (assemble params L example) as [[tokens segs]| |] eqn:Hasm;
    simpl in Heq; try discriminate.
  destruct (pad_and_check params L tokens segs) as [[[ids mask] sg]| |] eqn:Hpad;
    simpl in Heq; try discriminate.
  destruct (resolve_label _ _ _ _); simpl in Heq; try discriminate.
  injection Heq as <-. simpl.
  destruct (pad_and_check_inv _ _ _ _ _ _ _ Hpad)
    as (pid & rest & _ & _ & _ & -> & -> & ->).
  destruct (assemble_inv _ _ _ _ _ Hasm) as (ta & tb & Htr & Horder & _).
  assert (Hside : forall (P : Z -> Prop) x n (l : list Z),
             P x -> Forall P l -> Forall P (pad_side params (replicate n x) l)).
  { intros P x n l Hx Hl. unfold pad_side.
    destruct (pad_on_left params); apply Forall_app; split;
      done || by apply Forall_replicate. }
  assert (Hsegs : segs = (assembly_order_spec params ta
                            (if nonempty tb then tb else None)).2) by by rewrite <- Horder.
  split; [|split].
  - unfold padding_mask_value, real_mask_value.
    apply Hside; [|apply Forall_replicate];
      destruct (mask_padding_with_zero params); auto.
  - apply Hside; [set_solver|]. rewrite Hsegs.
    apply assembly_segs_values; set_solver.
  - intros Hb. apply Hside; [set_solver|]. rewrite Hsegs.
    rewrite (tokenize_and_truncate_single params L example Hb) in Htr.
    injection Htr as _ <-. simpl.
    apply assembly_segs_values; set_solver.
Qed.

Lemma emitted_values_witness :
  Forall (fun v => v = 0%Z \/ v = 1%Z) [1; 1; 1; 1; 1; 1; 1; 1]%Z
  /\ Forall (fun s => s ∈ [0; 1; 0; 0]%Z) [0; 0; 0; 0; 0; 1; 1; 1]%Z.
Proof.
  destruct (emitted_values (tokenizer := demo_tokenizer) no_float default_params 8
              "classification" (make_label_map ["neg"; "pos"])
              (example_of "a bb ccc" (Some "dd e") "neg")
              {| input_ids := [1; 6; 7; 8; 2; 7; 6; 2]%Z;
                 input_mask := [1; 1; 1; 1; 1; 1; 1; 1]%Z;
                 segment_ids := [0; 0; 0; 0; 0; 1; 1; 1]%Z;
                 label_id := ClassIndex 0 |} eq_refl)
    as (Hmask & Hsegs & _).
  split; [exact Hmask | exact Hsegs].
Defined.

(** * Further properties of the batch and of the dataset *)

Lemma convert_loop_accumulates `{tokenizer : Tokenizer} {float32 : Type}
    (np_float32 : string -> option float32) (params : TokenParams) (L : Z)
    (output_mode : string) (label_map : gmap string nat) (examples : list InputExample) :
  forall features : list (InputFeatures float32),
  convert_loop np_float32 params L output_mode label_map examples features
  = new ← convert_loop np_float32 params L output_mode label_map examples [];
    mret (features ++ new).
Proof.
  induction examples as [|ex rest IH]; intros features; simpl.
  { by rewrite app_nil_r. }
  destruct (convert_example np_float32 params L output_mode label_map ex) as [f| |];
    simpl; [|done|done].
  rewrite (IH (features ++ [f])), (IH [f]).
  destruct (convert_loop np_float32 params L output_mode label_map rest []) as [new| |];
    simpl; [|done|done].
  unfold mret, outcome_ret. by rewrite <- app_assoc.
Qed.

Lemma convert_loop_app `{tokenizer : Tokenizer} {float32 : Type}
    (np_float32 : string -> option float32) (params : TokenParams) (L : Z)
    (output_mode : string) (label_map : gmap string nat)
    (examples1 examples2 : list InputExample) :
  forall features : list (InputFeatures float32),
  convert_loop np_float32 params L output_mode label_map (examples1 ++ examples2) features
  = features1 ← convert_loop np_float32 params L output_mode label_map examples1 features;
    convert_loop np_float32 params L output_mode label_map examples2 features1.
Proof.
  induction examples1 as [|ex rest IH]; intros features; simpl; [done|].
  destruct (convert_example np_float32 params L output_mode label_map ex) as [f| |];
    simpl; [|done|done].
  apply IH.
Qed.


(** Indexing a list the Python way. *)
Lemma py_index_cases {T} (l : list T) (idx : Z) :
  ((0 <= idx < len l)%Z ->
     exists x, l !! Z.to_nat idx = Some x /\ py_index l idx = Ok x)
  /\ ((- len l <= idx < 0)%Z -> py_index l idx = py_index l (idx + len l))
  /\ ((idx < - len l \/ len l <= idx)%Z ->
      py_index l idx = Raise (IndexError "list index out of range")).
Proof.
  unfold py_index, len. cbv zeta. split; [|split].
  - intros Hi. rewrite !(proj2 (Z.ltb_ge idx 0)) by lia.
    destruct (l !! Z.to_nat idx) as [x|] eqn:Hx; [by exists x|].
    apply lookup_ge_None in Hx. lia.
  - intros Hi. rewrite (proj2 (Z.ltb_lt idx 0)) by lia.
    rewrite !(proj2 (Z.ltb_ge (idx + Z.of_nat (length l)) 0)) by lia. done.
  - intros [Hi|Hi].
    + rewrite (proj2 (Z.ltb_lt idx 0)) by lia.
      by rewrite (proj2 (Z.ltb_lt (idx + Z.of_nat (length l)) 0)) by lia.
    + rewrite !(proj2 (Z.ltb_ge idx 0)) by lia.
      rewrite (proj2 (lookup_ge_None l (Z.to_nat idx))); [done | lia].
Qed.

(** X13: a dataset is built exactly when its split is encoded.  With
    [evaluate] the examples are those of [get_dev_examples], otherwise
    those of [get_train_examples]; if their encoding raises, so does
    the constructor, with the same exception; otherwise the dataset
    holds the labels and examples of the processor and its length is
    the number of examples of the split. *)
Theorem dataset_init_len {float32 : Type} (np_float32 : string -> option float32)
    (data_dir : string) (tokenizer : Tokenizer) (L : Z) (processor : Processor)
    (output_mode : string) (evaluate : bool) (token_params : TokenParams) :
  let split :=
    if evaluate then get_dev_examples data_dir else get_train_examples data_dir in
  let batch :=
    convert_examples_to_features np_float32 token_params L output_mode split get_labels in
  let built :=
    GLUEDataset.__init__ np_float32 data_dir tokenizer L processor output_mode
      evaluate token_params in
  (forall e, batch = Raise e <-> built = Raise e)
  /\ (forall features, batch = Ok features ->
        exists self,
          built = Ok self
          /\ GLUEDataset.features self = features
          /\ GLUEDataset.examples self = split
          /\ GLUEDataset.label_list self = get_labels
          /\ GLUEDataset.__len__ self = len split)
  /\ (forall self, built = Ok self ->
        batch = Ok (GLUEDataset.features self)
        /\ GLUEDataset.__len__ self = len split).
Proof.
  intros split batch built.
  assert (Hlen : forall features, batch = Ok features -> len features = len split).
  { intros features Hb. unfold len. f_equal.
    unfold batch, convert_examples_to_features in Hb.
    destruct (convert_loop_cases np_float32 token_params L output_mode
                (make_label_map get_labels) split [])
      as [(new & Hloop & Hall)|(pre & bad & post & err & _ & _ & _ & Hloop)];
      rewrite Hloop in Hb; [|discriminate].
    injection Hb as <-. simpl. symmetry. by eapply Forall2_length. }
  unfold built, GLUEDataset.__init__. fold split. fold batch.
  destruct batch as [features|e|] eqn:Hbatch; simpl.
  - split; [intros e; split; discriminate|]. split.
    + intros fs [= <-]. eexists. split; [reflexivity|]. simpl.
      repeat split; try done. unfold GLUEDataset.__len__. simpl. by apply Hlen.
    + intros self [= <-]. simpl. split; [done|].
      unfold GLUEDataset.__len__. simpl. by apply Hlen.
  - split; [intros e'; split; intros [= <-]; done|].
    split; [intros fs; discriminate | intros self; discriminate].
  - split; [intros e; split; discriminate|].
    split; [intros fs; discriminate | intros self; discriminate].
Qed.

Lemma dataset_init_len_witness :
  exists self,
    GLUEDataset.__init__ no_float "glue/sst2" demo_tokenizer 8 demo_processor
      "classification" true default_params = Ok self
    /\ GLUEDataset.__len__ self = 3%Z.
Proof.
  destruct (proj1 (proj2 (dataset_init_len no_float "glue/sst2" demo_tokenizer 8
                            demo_processor "classification" true default_params))
              _ ltac:(vm_compute; reflexivity))
    as (self & Hself & _ & _ & _ & Hlen).
  exists self. split; [exact Hself | exact Hlen].
Defined.

(** X14: reading a dataset.  For an index from 0 up to the length,
    [__getitem__] returns the ids, the segment ids, the mask and the
    label -- in this order -- of the encoding of the example at that
    position of the split, each sequence of length [max_seq_length];
    a negative index down to minus the length counts from the end;
    any other index raises [IndexError]. *)
Theorem dataset_getitem {float32 : Type} (np_float32 : string -> option float32)
    (data_dir : string) (tokenizer : Tokenizer) (L : Z) (processor : Processor)
    (output_mode : string) (evaluate : bool) (token_params : TokenParams)
    (self : GLUEDataset.t float32) (idx : Z) :
  GLUEDataset.__init__ np_float32 data_dir tokenizer L processor output_mode
    evaluate token_params = Ok self ->
  let split :=
    if evaluate then get_dev_examples data_dir else get_train_examples data_dir in
  let n := GLUEDataset.__len__ self in
  ((0 <= idx < n)%Z ->
     exists example f,
       split !! Z.to_nat idx = Some example
       /\ convert_example (tokenizer := tokenizer) np_float32 token_params L output_mode
            (make_label_map get_labels) example = Ok f
       /\ GLUEDataset.__getitem__ self idx
          = Ok (input_ids f, segment_ids f, input_mask f, label_id f)
       /\ len (input_ids f) = L /\ len (segment_ids f) = L /\ len (input_mask f) = L)
  /\ ((- n <= idx < 0)%Z ->
      GLUEDataset.__getitem__ self idx = GLUEDataset.__getitem__ self (idx + n))
  /\ ((idx < - n \/ n <= idx)%Z ->
      GLUEDataset.__getitem__ self idx = Raise (IndexError "list index out of range")).
Proof.
  intros Hinit split n.
  unfold GLUEDataset.__init__ in Hinit. fold split in Hinit.
  unfold convert_examples_to_features in Hinit.
  destruct (convert_loop_cases (tokenizer := tokenizer) np_float32 token_params L
              output_mode (make_label_map get_labels) split [])
    as [(new & Hloop & Hall)|(pre & bad & post & err & _ & _ & _ & Hloop)];
    rewrite Hloop in Hinit; [|discriminate].
  simpl in Hinit. injection Hinit as <-.
  unfold n, GLUEDataset.__len__, GLUEDataset.__getitem__. simpl.
  destruct (py_index_cases new idx) as (Hin & Hneg & Hout).
  split; [|split].
  - intros Hi. destruct (Hin Hi) as (f & Hf & ->).
    destruct (Forall2_lookup_r _ _ _ _ _ Hall Hf) as (example & Hex & Hconv).
    exists example, f. split; [done|]. split; [done|]. split; [done|].
    destruct (emitted_lengths _ _ _ _ _ _ _ Hconv) as (H1 & H2 & H3). done.
  - intros Hi. by rewrite (Hneg Hi).
  - intros Hi. by rewrite (Hout Hi).
Qed.

Lemma dataset_getitem_witness :
  exists self,
    GLUEDataset.__init__ no_float "glue/sst2" demo_tokenizer 6 demo_processor
      "classification" false default_params = Ok self
    /\ (exists f,
          convert_example no_float default_params 6 "classification"
            (make_label_map ["neg"; "pos"]) (example_of "a bb ccc" None "pos") = Ok f
          /\ GLUEDataset.__getitem__ self 0
             = Ok (input_ids f, segment_ids f, input_mask f, label_id f))
    /\ GLUEDataset.__getitem__ self (-1) = GLUEDataset.__getitem__ self (-1 + 2)
    /\ GLUEDataset.__getitem__ self 2 = Raise (IndexError "list index out of range").
Proof.
  eexists. split; [vm_compute; reflexivity|].
  match goal with
  | |- (exists f, _ /\ GLUEDataset.__getitem__ ?s _ = _) /\ _ =>
      pose proof (fun idx => dataset_getitem no_float "glue/sst2" demo_tokenizer 6
                    demo_processor "classification" false default_params s idx
                    ltac:(vm_compute; reflexivity)) as Hget
  end.
  split; [|split].
  - destruct (proj1 (Hget 0%Z)) as (example & f & Hex & Hconv & Hitem & _).
    { vm_compute. split; [discriminate | reflexivity]. }
    injection Hex as <-. exists f. split; [exact Hconv | exact Hitem].
  - apply (proj1 (proj2 (Hget (-1)%Z))).
    vm_compute. split; [discriminate | reflexivity].
  - apply (proj2 (proj2 (Hget 2%Z))).
    right. vm_compute. discriminate.
Defined.

(** * The conventions of the docstring *)

(** X15: the assembly follows the patterns its docstring gives.  With
    [eos_token] and [cls_token] set, [bos_token] and [sep_token_extra]
    unset (the BERT pattern) a pair is laid out as
    [CLS] A [SEP] B [SEP] with the marker and A and its [SEP] on
    [sequence_a_segment_id] and B and its [SEP] on
    [sequence_b_segment_id], and as A [SEP] B [SEP] [CLS] when
    [cls_token_at_end] is set; a single sequence is [CLS] A [SEP].
    With [bos_token] and [eos_token] set and the other two unset (the
    NMT pattern) a pair is BOS A EOS BOS B EOS, split between the two
    segment ids after the first EOS. *)
Theorem docstring_patterns (params : TokenParams) (tokens_a : list string)
    (t : string) (tokens_b : list string) :
  is_set (eos_token params) = true ->
  is_set (sep_token_extra params) = false ->
  let cls := tok (cls_token params) in
  let bos := tok (bos_token params) in
  let eos := tok (eos_token params) in
  let seg_a := sequence_a_segment_id params in
  let seg_b := sequence_b_segment_id params in
  let seg_c := cls_token_segment_id params in
  let b := t :: tokens_b in
  (is_set (bos_token params) = false -> is_set (cls_token params) = true ->
     (cls_token_at_end params = false ->
        add_special_tokens params tokens_a (Some b)
        = ([cls] ++ tokens_a ++ [eos] ++ b ++ [eos],
           [seg_c] ++ replicate (length (tokens_a ++ [eos])) seg_a
             ++ replicate (length (b ++ [eos])) seg_b)
        /\ add_special_tokens params tokens_a None
           = ([cls] ++ tokens_a ++ [eos],
              [seg_c] ++ replicate (length (tokens_a ++ [eos])) seg_a))
     /\ (cls_token_at_end params = true ->
         add_special_tokens params tokens_a (Some b)
         = (tokens_a ++ [eos] ++ b ++ [eos] ++ [cls],
            replicate (length (tokens_a ++ [eos])) seg_a
              ++ replicate (length (b ++ [eos])) seg_b ++ [seg_c])))
  /\ (is_set (bos_token params) = true -> is_set (cls_token params) = false ->
      add_special_tokens params tokens_a (Some b)
      = ([bos] ++ tokens_a ++ [eos] ++ [bos] ++ b ++ [eos],
         replicate (length ([bos] ++ tokens_a ++ [eos])) seg_a
           ++ replicate (length ([bos] ++ b ++ [eos])) seg_b)
      /\ add_special_tokens params tokens_a None
         = ([bos] ++ tokens_a ++ [eos],
            replicate (length ([bos] ++ tokens_a ++ [eos])) seg_a)).
Proof.
  intros Heos Hsep cls bos eos seg_a seg_b seg_c b.
  subst cls bos eos seg_a seg_b seg_c b.
  rewrite !add_special_tokens_order. unfold assembly_order_spec. cbn [nonempty].
  rewrite (marker_set _ Heos), (marker_unset _ Hsep).
  split.
  - intros Hbos Hcls. rewrite Hcls, (marker_unset _ Hbos), (marker_set _ Hcls).
    split; intros ->; repeat split; simpl; rewrite ?app_nil_r;
      repeat (progress (rewrite <- ?app_assoc; simpl)); reflexivity.
  - intros Hbos Hcls. rewrite Hcls, (marker_set _ Hbos).
    split; simpl; rewrite ?app_nil_r; reflexivity.
Qed.

Lemma docstring_patterns_witness :
  add_special_tokens default_params ["is"; "this"; "jack"; "##ville"; "?"]
    (Some ["no"; "it"; "is"; "not"; "."])
  = (["[CLS]"; "is"; "this"; "jack"; "##ville"; "?"; "[SEP]";
      "no"; "it"; "is"; "not"; "."; "[SEP]"],
     [0; 0; 0; 0; 0; 0; 0; 1; 1; 1; 1; 1; 1]%Z)
  /\ add_special_tokens default_params ["the"; "dog"; "is"; "hairy"; "."] None
     = (["[CLS]"; "the"; "dog"; "is"; "hairy"; "."; "[SEP]"], [0; 0; 0; 0; 0; 0; 0]%Z).
Proof.
  split.
  - exact (proj1 (proj1 (proj1 (docstring_patterns default_params
                                  ["is"; "this"; "jack"; "##ville"; "?"]
                                  "no" ["it"; "is"; "not"; "."] eq_refl eq_refl)
                           eq_refl eq_refl) eq_refl)).
  - exact (proj2 (proj1 (proj1 (docstring_patterns default_params
                                  ["the"; "dog"; "is"; "hairy"; "."]
                                  "no" [] eq_refl eq_refl)
                           eq_refl eq_refl) eq_refl)).
Defined.
